(** * SGDLearner (acme/agents/jax/dqn/learning_lib.py)

    A shallow embedding of the SGD learner: the training state, the single
    SGD step with its collectives over the replica axis, the multi-step
    batcher, the priority feedback, the timing metric and save/restore.

    Conventions of the embedding.
    - Opaque collaborators (network, loss, optimizer, PRNG, gradient
      all-reduce) are Section variables with the signatures the source calls
      them with.
    - A value with a leading device axis is the list of its per-replica
      values, replica 0 first.
    - Scalars (loss, metrics, priorities, wall-clock time) are exact
      rationals [Q]; arrays of them are [ndarray]s.
    - [steps] is a 32-bit signed integer on the devices: additions wrap. *)

From Stdlib Require Import ZArith QArith Qround Lia.
From stdpp Require Import base option list gmap strings fin_maps finite.

Local Open Scope Z_scope.

(** ** Arrays *)

(** An n-dimensional array: a scalar, or a leading axis of sub-arrays. *)
#[warnings="-register-all"] Inductive ndarray (A : Type) : Type :=
| Scalar (x : A)
| Axis (rows : list (ndarray A)).
Arguments Scalar {A} x.
Arguments Axis {A} rows.

(** A one-dimensional array from its elements. *)
Definition vector {A} (l : list A) : ndarray A := Axis (Scalar <$> l).


(** The rows along the leading axis (iteration over an array). *)
Definition rows_of {A} (a : ndarray A) : list (ndarray A) :=
  match a with
  | Scalar _ => []
  | Axis rows => rows
  end.

Definition is_axis {A} (a : ndarray A) : bool :=
  match a with
  | Scalar _ => false
  | Axis _ => true
  end.

(** All elements in row-major order. *)
Fixpoint ravel {A} (a : ndarray A) : list A :=
  match a with
  | Scalar x => [x]
  | Axis rows => concat (map ravel rows)
  end.

(** [jnp.reshape(a, (-1, *a.shape[2:]))]: the two leading axes are merged
    into one, row-major; an array of rank one is unchanged and a scalar
    becomes an array of one element. *)
Definition merge_leading {A} (a : ndarray A) : ndarray A :=
  match a with
  | Scalar x => Axis [Scalar x]
  | Axis rows =>
      if forallb is_axis rows
      then Axis (concat (map rows_of rows))
      else Axis rows
  end.

(** [x[0]]: the first row along the leading axis. *)
Definition first_row {A} (a : ndarray A) : option (ndarray A) :=
  head (rows_of a).

Definition Qsum (l : list Q) : Q := foldr Qplus 0%Q l.

(** Arithmetic mean of a list of scalars, in lowest terms. *)
Definition Qmean (l : list Q) : Q :=
  Qred (Qsum l / inject_Z (Z.of_nat (length l))).

(** [jnp.mean(a)]: the mean of all elements of the array. *)
Definition jnp_mean (a : ndarray Q) : ndarray Q := Scalar (Qmean (ravel a)).

Definition Qtruthy (q : Q) : bool := negb (Qeq_bool q 0).

(** Python's [a / b] on numbers: division by zero raises. *)
Definition py_div (a b : Q) : option Q :=
  if Qeq_bool b 0 then None else Some (a / b)%Q.

(** A 32-bit signed integer from an integer: the value modulo [2^32] in
    the range from [-2^31] to [2^31 - 1]. *)
Definition int32_wrap (z : Z) : Z :=
  (z + 2147483648) `mod` 4294967296 - 2147483648.

(** [jnp.mod(a, b)] on integers: the remainder with the sign of [b], and 0
    for [b = 0]. *)
Definition jnp_mod (a b : Z) : Z :=
  if decide (b = 0) then 0 else a `mod` b.

(** ** Data model *)

(** [LossExtra]: the metrics and the optional new priorities. *)
Record LossExtra := mkLossExtra {
  metrics : gmap string (ndarray Q);
  reverb_priorities : option (ndarray Q)
}.

(** [ReverbUpdate]: sample keys and their priorities. *)
Record ReverbUpdate := mkReverbUpdate {
  keys : ndarray Z;
  priorities : ndarray Q
}.

(** [optax.periodic_update(new_tensors, old_tensors, steps, update_period)]:
    the new tensors when [jnp.mod(steps, update_period) == 0], the old ones
    otherwise. *)
Definition periodic_update {T} (new_tensors old_tensors : T)
    (steps update_period : Z) : T :=
  if decide (jnp_mod steps update_period = 0) then new_tensors
  else old_tensors.

(** [postprocess_aux]: every metric is reduced by [jnp.mean], the two
    leading axes of the priorities are merged. *)
Definition postprocess_aux (extra : LossExtra) : LossExtra :=
  mkLossExtra (jnp_mean <$> metrics extra)
              (merge_leading <$> reverb_priorities extra).

(** Stacking values of one tree structure along a new leading axis, as
    [jax.lax.scan] does with the per-iteration outputs and [jax.pmap] with
    the per-replica outputs. An absent leaf ([None]) stays absent. *)
Definition stack_metrics (ms : list (gmap string (ndarray Q)))
    : gmap string (ndarray Q) :=
  match ms with
  | [] => ∅
  | m0 :: _ => map_imap (λ name _, Some (Axis (omap (λ m, m !! name) ms))) m0
  end.

Definition stack_priorities (ps : list (option (ndarray Q)))
    : option (ndarray Q) :=
  Axis <$> mapM id ps.

Definition stack_extra (es : list LossExtra) : LossExtra :=
  mkLossExtra (stack_metrics (metrics <$> es))
              (stack_priorities (reverb_priorities <$> es)).

(** [jax.lax.scan]: the step function applied to the inputs in order, the
    carry threaded through and the outputs collected in order. *)
Fixpoint scan {S B A} (f : S -> B -> S * A) (init : S) (xs : list B)
    : S * list A :=
  match xs with
  | [] => (init, [])
  | x :: xs' =>
      let '(s, a) := f init x in
      let '(s', out) := scan f s xs' in
      (s', a :: out)
  end.

(** Modelled from the spec: [utils.process_multiple_batches] of
    acme/jax/utils.py is missing. A strict left fold applying the step
    function [num_batches] times to the sub-batches of the data in their
    order, carrying the state forward and collecting the auxiliary outputs,
    which are then post-processed. [sub_batch K k data] is the [k]-th of the
    [K] sub-batches the data provides. *)
Definition process_multiple_batches {S B A A'}
    (sub_batch : nat -> nat -> B -> B)
    (process_one_batch : S -> B -> S * A) (num_batches : nat)
    (postprocess : list A -> A') (state : S) (data : B) : S * A' :=
  let '(state', aux) :=
    scan process_one_batch state
         ((λ k, sub_batch num_batches k data) <$> seq 0 num_batches) in
  (state', postprocess aux).

(** Modelled from the spec: [utils.get_from_first_device] of
    acme/jax/utils.py is missing. The value held by replica 0. *)
Definition get_from_first_device {X} (nest : list X) : option X := head nest.

(** Modelled from the spec: [utils.replicate_in_all_devices] of
    acme/jax/utils.py is missing. The value broadcast identically to every
    one of the [n] devices. *)
Definition replicate_in_all_devices {X} (nest : X) (n : nat) : list X :=
  replicate n nest.

(** [prefetching_split]: the sample keys on the host, with their leading
    device axis, and the per-replica shards of the batch. *)
Record PrefetchingSplit (Batch : Type) := mkPrefetchingSplit {
  host : ndarray Z;
  device : list Batch
}.
Arguments mkPrefetchingSplit {Batch} host device.
Arguments host {Batch} p.
Arguments device {Batch} p.

(** One item added to a dictionary under construction: it replaces an
    earlier item with the same key. A key that is an array and not a scalar
    cannot be hashed: the call raises. *)
Definition dict_add (acc : option (gmap Z (ndarray Q)))
    (item : ndarray Z * ndarray Q) : option (gmap Z (ndarray Q)) :=
  m ← acc;
  match item.1 with
  | Scalar k => Some (<[k := item.2]> m)
  | Axis _ => None
  end.

(** [dict(items)]. *)
Definition dict_of_items (items : list (ndarray Z * ndarray Q))
    : option (gmap Z (ndarray Q)) :=
  foldl dict_add (Some ∅) items.

Definition insert_item (m : gmap Z (ndarray Q)) (kv : Z * ndarray Q)
    : gmap Z (ndarray Q) :=
  <[kv.1 := kv.2]> m.

(** A call of [mutate_priorities]: the client, the table and the updates
    dictionary. *)
Record Mutation (Client : Type) := mkMutation {
  mutation_client : Client;
  mutation_table : string;
  mutation_updates : gmap Z (ndarray Q)
}.
Arguments mkMutation {Client} _ _ _.
Arguments mutation_client {Client} m.
Arguments mutation_table {Client} m.
Arguments mutation_updates {Client} m.

(** What a call of [step] hands to its collaborators. *)
Inductive Event :=
| Put (reverb_update : ReverbUpdate)
| LogWrite (result : gmap string (ndarray Q)).

Section Learner.
Context {Params OptState Updates Grads PRNGKey Batch Client : Type}.

(** [TrainingState]. *)
Record TrainingState := mkTrainingState {
  params : Params;
  target_params : Params;
  opt_state : OptState;
  steps : Z;
  rng_key : PRNGKey
}.

(** The collaborators. *)
Variable network_init : PRNGKey -> Params.
(** [jax.value_and_grad(self._loss, has_aux=True)]. *)
Variable loss_value_and_grad :
  Params -> Params -> Batch -> PRNGKey -> (Q * LossExtra) * Grads.
Variable optimizer_init : Params -> OptState.
Variable optimizer_update : Grads -> OptState -> Updates * OptState.
Variable apply_updates : Params -> Updates -> Params.
(** [jax.random.split(key)] and [jax.random.split(key, 3)]. *)
Variable random_split : PRNGKey -> PRNGKey * PRNGKey.
Variable random_split3 : PRNGKey -> PRNGKey * PRNGKey * PRNGKey.
(** [jax.lax.pmean] on the gradient tree: from the gradients of all
    replicas, in replica order, to their mean. *)
Variable pmean_grads : list Grads -> Grads.

Variable target_update_period : Z.

(** [jax.lax.pmean] on a scalar. *)
Definition pmean (xs : list Q) : Q := Qmean xs.

(** What one replica contributes to the collectives of an SGD step: its
    loss and its gradients. *)
Definition replica_loss_grads (sb : TrainingState * Batch) : Q * Grads :=
  let '(_, rng_key') := random_split (rng_key sb.1) in
  let '((loss, _), grads) :=
    loss_value_and_grad (params sb.1) (target_params sb.1) sb.2 rng_key' in
  (loss, grads).

(** [sgd_step], on one replica. [axis] holds the operands of every replica
    of the parallel group, in replica order: [pmean] ranges over them. *)
Definition sgd_step (axis : list (TrainingState * Batch))
    (state : TrainingState) (batch : Batch) : TrainingState * LossExtra :=
  let '(next_rng_key, rng_key') := random_split (rng_key state) in
  let '((loss, extra), grads) :=
    loss_value_and_grad (params state) (target_params state) batch rng_key' in
  let loss := pmean ((fst ∘ replica_loss_grads) <$> axis) in
  let grads := pmean_grads ((snd ∘ replica_loss_grads) <$> axis) in
  let '(updates, new_opt_state) := optimizer_update grads (opt_state state) in
  let new_params := apply_updates (params state) updates in
  let extra :=
    mkLossExtra (<["total_loss" := Scalar loss]> (metrics extra))
                (reverb_priorities extra) in
  let steps' := int32_wrap (steps state + 1) in
  let target_params' :=
    periodic_update new_params (target_params state) steps'
                    target_update_period in
  (mkTrainingState new_params target_params' new_opt_state steps'
                   next_rng_key,
   extra).

(** Construction arguments and the execution platform. *)
Variable replay_client : option Client.
Variable replay_table_name : string.
Variable num_sgd_steps_per_step : nat.
(** The sub-batches of a replica's batch (see [process_multiple_batches]). *)
Variable sub_batch : nat -> nat -> Batch -> Batch.
(** [jax.local_devices()] has [S extra_devices] devices. *)
Variable extra_devices : nat.
Definition num_devices : nat := S extra_devices.

(** One [sgd_step] on every replica of the group: what [jax.pmap] does
    with it. *)
Definition pmap_sgd_step (states : list TrainingState)
    (batches : list Batch) : list TrainingState * list LossExtra :=
  let axis := zip states batches in
  let out := (λ sb, sgd_step axis sb.1 sb.2) <$> axis in
  (fst <$> out, snd <$> out).

(** The auxiliary output of one replica after the sub-steps: its extras
    stacked along the sub-step axis and post-processed. *)
Definition replica_aux (rounds : list (list LossExtra)) (i : nat)
    : LossExtra :=
  postprocess_aux (stack_extra (omap (λ round, round !! i) rounds)).

(** [self._sgd_step]: the multi-step [sgd_step] run by [jax.pmap] on all
    replicas in lockstep. The operands must agree on the size of the
    device axis. The result is the new state and the extra of every
    replica. *)
Definition pmapped_sgd_step (states : list TrainingState)
    (batch : list Batch) : option (list TrainingState * list LossExtra) :=
  if decide (length states = length batch) then
    Some (process_multiple_batches
            (λ K k shards, sub_batch K k <$> shards)
            pmap_sgd_step num_sgd_steps_per_step
            (λ rounds, replica_aux rounds <$> seq 0 (length states))
            states batch)
  else None.

(** The learner object: the fields the methods read and write. *)
Record Learner := mkLearner {
  state : list TrainingState;
  timestamp : option Q;
  current_step : Z;
  counts : gmap string Q
}.

(** [SGDLearner.__init__]. *)
Definition init (random_key : PRNGKey) : Learner :=
  let '(key_params, key_target, key_state) := random_split3 random_key in
  let initial_params := network_init key_params in
  let initial_target_params := network_init key_target in
  let state :=
    mkTrainingState initial_params initial_target_params
                    (optimizer_init initial_params) 0 key_state in
  mkLearner (replicate_in_all_devices state num_devices) None 0 ∅.

(** [update_priorities], the function the asynchronous executor runs on
    every update put to it. The result is [None] when the function returns
    at once, [Some None] when building the updates dictionary raises, and
    [Some (Some m)] when it calls [mutate_priorities]. *)
Definition update_priorities (reverb_update : ReverbUpdate)
    : option (option (Mutation Client)) :=
  match replay_client with
  | None => None
  | Some client =>
      let keys' := merge_leading (keys reverb_update) in
      let priorities' := merge_leading (priorities reverb_update) in
      Some (updates ← dict_of_items (zip (rows_of keys')
                                         (rows_of priorities'));
            Some (mkMutation client replay_table_name updates))
  end.

(** Modelled from the spec: [counting.Counter] of acme/utils/counting.py
    is missing. [increment] adds the named deltas to the cumulative
    values and returns the mapping of cumulative values. *)
Definition counter_increment (counts : gmap string Q)
    (deltas : gmap string Q) : gmap string Q :=
  union_with (λ a b, Some (a + b)%Q) counts deltas.

Definition elapsed_since (previous : option Q) (now : Q) : Q :=
  match previous with
  | Some t => if Qtruthy t then (now - t)%Q else 0%Q
  | None => 0%Q
  end.

(** [(self._num_sgd_steps_per_step / elapsed) if elapsed else 0]. *)
Definition steps_per_sec (elapsed : Q) : option Q :=
  if Qtruthy elapsed
  then py_div (inject_Z (Z.of_nat num_sgd_steps_per_step)) elapsed
  else Some 0%Q.

(** [SGDLearner.step]. The next item of the data iterator and the reading
    of [time.time()] are inputs; the result is [None] when the call
    raises. *)
Definition step (self : Learner) (prefetching_split : PrefetchingSplit Batch)
    (now : Q) : option (Learner * list Event) :=
  let reverb_keys := host prefetching_split in
  let batch := device prefetching_split in
  '(state', extra) ← pmapped_sgd_step (state self) batch;
  let elapsed := elapsed_since (timestamp self) now in
  let puts :=
    match replay_client, stack_priorities (reverb_priorities <$> extra) with
    | Some _, Some p => [Put (mkReverbUpdate reverb_keys p)]
    | _, _ => []
    end in
  steps_per_sec' ← steps_per_sec elapsed;
  current_step' ← get_from_first_device (steps <$> state');
  metrics0 ← get_from_first_device (metrics <$> extra);
  let metrics0 :=
    <["steps_per_second" := Scalar steps_per_sec']> metrics0 in
  let counts' :=
    counter_increment (counts self)
      {[ "steps" := inject_Z (Z.of_nat num_sgd_steps_per_step);
         "walltime" := elapsed ]} in
  let result := metrics0 ∪ (Scalar <$> counts') in
  Some (mkLearner state' (Some now) current_step' counts',
        puts ++ [LogWrite result]).

(** [SGDLearner.get_variables]. *)
Definition get_variables (self : Learner) (names : list string)
    : option (list Params) :=
  p ← get_from_first_device (params <$> state self); Some [p].

(** [SGDLearner.save]. *)
Definition save (self : Learner) : option TrainingState :=
  get_from_first_device (state self).

(** [SGDLearner.restore]. *)
Definition restore (self : Learner) (state' : TrainingState) : Learner :=
  mkLearner (replicate_in_all_devices state' num_devices)
            (timestamp self) (current_step self) (counts self).

(** Successive calls of [step], one per input; the events in order. *)
Fixpoint run_steps (self : Learner)
    (inputs : list (PrefetchingSplit Batch * Q))
    : option (Learner * list Event) :=
  match inputs with
  | [] => Some (self, [])
  | (split, now) :: rest =>
      '(self', events) ← step self split now;
      '(self'', events') ← run_steps self' rest;
      Some (self'', events ++ events')
  end.

(** Successive internal steps as one replica sees them: each input is the
    operands of the parallel group and this replica's batch. *)
Definition internal_steps (state0 : TrainingState)
    (inputs : list (list (TrainingState * Batch) * Batch)) : TrainingState :=
  foldl (λ s ab, (sgd_step ab.1 s ab.2).1) state0 inputs.

(** The key [sgd_step] hands to the loss when run on a state. *)
Definition step_key (s : TrainingState) : PRNGKey :=
  (random_split (rng_key s)).2.

(** The key reached from [k] along a path of splits: [false] takes the
    first key of a split, [true] the second. *)
Definition derive (k : PRNGKey) (path : list bool) : PRNGKey :=
  foldl (λ k (b : bool),
           if b then (random_split k).2 else (random_split k).1) k path.

(** ** The single step *)

Lemma sgd_step_state axis s b :
  (sgd_step axis s b).1 =
  let grads := pmean_grads ((snd ∘ replica_loss_grads) <$> axis) in
  let uo := optimizer_update grads (opt_state s) in
  let new_params := apply_updates (params s) uo.1 in
  mkTrainingState new_params
    (periodic_update new_params (target_params s)
                     (int32_wrap (steps s + 1)) target_update_period)
    uo.2 (int32_wrap (steps s + 1)) (random_split (rng_key s)).1.
Proof.
  unfold sgd_step.
  destruct (random_split (rng_key s)) as [next_key key].
  destruct (loss_value_and_grad _ _ _ _) as [[loss extra] grads].
  destruct (optimizer_update _ _) as [updates new_opt]. reflexivity.
Qed.

Lemma sgd_step_extra axis s b :
  (sgd_step axis s b).2 =
  let extra := (loss_value_and_grad (params s) (target_params s) b
                                    (step_key s)).1.2 in
  mkLossExtra
    (<["total_loss" :=
         Scalar (pmean ((fst ∘ replica_loss_grads) <$> axis))]>
       (metrics extra))
    (reverb_priorities extra).
Proof.
  unfold sgd_step, step_key.
  destruct (random_split (rng_key s)) as [next_key key]. simpl.
  destruct (loss_value_and_grad _ _ _ _) as [[loss extra] grads].
  destruct (optimizer_update _ _) as [updates new_opt]. reflexivity.
Qed.

(** ** 32-bit step counts *)

Lemma int32_wrap_small z :
  -2147483648 <= z < 2147483648 -> int32_wrap z = z.
Proof. intros Hz. unfold int32_wrap. rewrite Z.mod_small; lia. Qed.

Lemma int32_wrap_range z : -2147483648 <= int32_wrap z < 2147483648.
Proof.
  unfold int32_wrap.
  pose proof (Z.mod_pos_bound (z + 2147483648) 4294967296 ltac:(lia)). lia.
Qed.

Lemma int32_wrap_add a b : int32_wrap (int32_wrap a + b) = int32_wrap (a + b).
Proof.
  unfold int32_wrap. f_equal.
  replace ((a + 2147483648) `mod` 4294967296 - 2147483648 + b + 2147483648)
    with ((a + 2147483648) `mod` 4294967296 + b) by lia.
  rewrite Zplus_mod_idemp_l. f_equal. lia.
Qed.

(** The step count after [n] more internal steps. *)
Definition steps_after (n : nat) (z : Z) : Z :=
  Nat.iter n (λ x, int32_wrap (x + 1)) z.

Lemma steps_after_add a b z :
  steps_after (a + b) z = steps_after b (steps_after a z).
Proof.
  unfold steps_after. rewrite Nat.add_comm. apply Nat.iter_add.
Qed.

Lemma steps_after_wrap n z :
  -2147483648 <= z < 2147483648 ->
  steps_after n z = int32_wrap (z + Z.of_nat n).
Proof.
  intros Hz. induction n as [|n IH].
  - cbn. rewrite Z.add_0_r, int32_wrap_small by exact Hz. reflexivity.
  - change (steps_after (S n) z) with (int32_wrap (steps_after n z + 1)).
    rewrite IH, int32_wrap_add. f_equal. lia.
Qed.

Lemma steps_after_small n z :
  -2147483648 <= z -> z + Z.of_nat n < 2147483648 ->
  steps_after n z = z + Z.of_nat n.
Proof.
  intros Hz Hn. rewrite steps_after_wrap by lia.
  apply int32_wrap_small. lia.
Qed.

Lemma jnp_mod_pos a b : 0 < b -> jnp_mod a b = a `mod` b.
Proof. intros Hb. unfold jnp_mod. rewrite decide_False by lia. reflexivity. Qed.

(** With a period of 0 every step copies the new tensors. *)
Lemma periodic_update_period_0 {T} (new_tensors old_tensors : T) steps :
  periodic_update new_tensors old_tensors steps 0 = new_tensors.
Proof. reflexivity. Qed.

Lemma sgd_step_steps axis s b :
  steps (sgd_step axis s b).1 = int32_wrap (steps s + 1).
Proof. rewrite sgd_step_state. reflexivity. Qed.

Lemma sgd_step_rng_key axis s b :
  rng_key (sgd_step axis s b).1 = (random_split (rng_key s)).1.
Proof. rewrite sgd_step_state. reflexivity. Qed.

Lemma sgd_step_target axis s b :
  target_params (sgd_step axis s b).1 =
  periodic_update (params (sgd_step axis s b).1) (target_params s)
                  (steps (sgd_step axis s b).1) target_update_period.
Proof. rewrite sgd_step_state. reflexivity. Qed.

Lemma internal_steps_snoc s inputs ab :
  internal_steps s (inputs ++ [ab]) =
  (sgd_step ab.1 (internal_steps s inputs) ab.2).1.
Proof. unfold internal_steps. rewrite foldl_app. reflexivity. Qed.

Lemma internal_steps_steps s inputs :
  steps (internal_steps s inputs) = steps_after (length inputs) (steps s).
Proof.
  induction inputs as [|ab inputs IH] using rev_ind; [reflexivity|].
  rewrite internal_steps_snoc, sgd_step_steps, IH, length_app.
  cbn [length]. rewrite Nat.add_1_r. reflexivity.
Qed.

Lemma steps_after_S n z :
  steps_after (S n) z = int32_wrap (steps_after n z + 1).
Proof. reflexivity. Qed.

(** ** Periodic target update *)

(** C1. For a positive [target_update_period] and any sequence of internal
    steps, the target parameters after a step are the current parameters,
    those the step produced, exactly when the step count after the
    increment is divisible by the period, and are carried over unchanged
    otherwise. With period 2, from a state with step count 0 and initial
    target [target_0], writing [params_0], [params_1], [params_2] for the
    parameters that the first, second and third of three successive steps
    produce: the target is [target_0] after step 1 and [params_1] after
    step 2, where step 3 leaves it. The sync occurs at step 2, not at
    step 1. *)
Theorem target_params_periodic_sync s0 inputs ab :
  0 < target_update_period ->
  let s := internal_steps s0 inputs in
  let s' := internal_steps s0 (inputs ++ [ab]) in
  steps s' = int32_wrap (steps s + 1) /\
  (steps s' `mod` target_update_period = 0 ->
     target_params s' = params s') /\
  (steps s' `mod` target_update_period <> 0 ->
     target_params s' = target_params s) /\
  (target_update_period = 2 -> steps s0 = 0 ->
     forall i1 i2 i3,
       target_params (internal_steps s0 [i1]) = target_params s0 /\
       target_params (internal_steps s0 [i1; i2]) =
         params (internal_steps s0 [i1; i2]) /\
       target_params (internal_steps s0 [i1; i2; i3]) =
         params (internal_steps s0 [i1; i2])).
Proof.
  intros Hpos s s'. subst s s'.
  rewrite internal_steps_snoc.
  set (s := internal_steps s0 inputs).
  rewrite sgd_step_target, sgd_step_steps.
  unfold periodic_update. rewrite jnp_mod_pos by exact Hpos.
  split; [reflexivity|].
  split; [intros H; rewrite decide_True by exact H; reflexivity|].
  split; [intros H; rewrite decide_False by exact H; reflexivity|].
  intros HP H0 i1 i2 i3.
  unfold internal_steps; cbn [foldl fst snd].
  rewrite !sgd_step_target, !sgd_step_steps, H0, HP.
  change (int32_wrap (0 + 1)) with 1. change (int32_wrap (1 + 1)) with 2.
  change (int32_wrap (2 + 1)) with 3.
  unfold periodic_update.
  change (jnp_mod 1 2) with 1. change (jnp_mod 2 2) with 0.
  change (jnp_mod 3 2) with 1.
  rewrite !(decide_False (P := 1 = 0)) by discriminate.
  rewrite decide_True by reflexivity. auto.
Qed.

(** ** The replica group *)


Lemma scan_cons {S B A} (f : S -> B -> S * A) init x xs :
  scan f init (x :: xs) =
  ((scan f (f init x).1 xs).1, (f init x).2 :: (scan f (f init x).1 xs).2).
Proof.
  simpl. destruct (f init x) as [s a]. simpl.
  destruct (scan f s xs) as [s' out]. reflexivity.
Qed.

Lemma group_states_steps axis : forall states batches,
  length states = length batches ->
  steps <$> (fst <$> ((λ sb, sgd_step axis sb.1 sb.2) <$> zip states batches))
  = (λ z, int32_wrap (z + 1)) <$> (steps <$> states).
Proof.
  induction states as [|s states IH]; intros [|b batches] Hlen;
    simpl in *; try discriminate; [reflexivity|].
  rewrite sgd_step_steps. f_equal. apply IH. lia.
Qed.

Lemma pmap_sgd_step_length states batches :
  length states = length batches ->
  length (pmap_sgd_step states batches).1 = length states /\
  length (pmap_sgd_step states batches).2 = length states.
Proof.
  intros Hlen. unfold pmap_sgd_step. simpl.
  rewrite !length_fmap, length_zip_with. lia.
Qed.

Lemma pmap_sgd_step_steps states batches :
  length states = length batches ->
  steps <$> (pmap_sgd_step states batches).1
  = (λ z, int32_wrap (z + 1)) <$> (steps <$> states).
Proof. intros Hlen. apply group_states_steps, Hlen. Qed.

Lemma scan_pmap_sgd_step n : forall rounds states,
  length states = n ->
  Forall (λ batches, length batches = n) rounds ->
  length (scan pmap_sgd_step states rounds).1 = n /\
  steps <$> (scan pmap_sgd_step states rounds).1
    = steps_after (length rounds) <$> (steps <$> states) /\
  Forall (λ extras : list LossExtra, length extras = n)
         (scan pmap_sgd_step states rounds).2.
Proof.
  induction rounds as [|batches rounds IH]; intros states Hn Hall.
  - simpl. split; [exact Hn|]. split; [|constructor].
    rewrite <- (list_fmap_id (steps <$> states)) at 1.
    apply list_fmap_ext. intros _ z _. reflexivity.
  - apply Forall_cons in Hall as [Hb Hall].
    assert (Hlen : length states = length batches) by congruence.
    destruct (pmap_sgd_step_length states batches Hlen) as [H1 H2].
    pose proof (pmap_sgd_step_steps states batches Hlen) as H3.
    rewrite scan_cons.
    destruct (IH (pmap_sgd_step states batches).1 ltac:(congruence) Hall)
      as (I1 & I2 & I3).
    cbn [fst snd length]. split; [exact I1|]. split.
    + rewrite I2, H3, <- list_fmap_compose.
      apply list_fmap_ext. intros _ z _. cbn [compose].
      symmetry. apply (steps_after_add 1 (length rounds) z).
    + constructor; [congruence|exact I3].
Qed.

Lemma sub_batch_rounds_length (batch : list Batch) K :
  Forall (λ batches : list Batch, length batches = length batch)
         ((λ k, sub_batch K k <$> batch) <$> seq 0 K) /\
  length ((λ k, sub_batch K k <$> batch) <$> seq 0 K) = K.
Proof.
  split.
  - apply Forall_fmap, Forall_forall. intros k _. simpl.
    apply length_fmap.
  - rewrite length_fmap, length_seq. reflexivity.
Qed.

(** The multi-step on the group succeeds exactly on operands of one size,
    keeps that size and advances every replica's step count by the number of
    sub-steps. *)
Lemma pmapped_sgd_step_ok states batch :
  length states = length batch ->
  exists states' extras,
    pmapped_sgd_step states batch = Some (states', extras) /\
    length states' = length states /\
    length extras = length states /\
    steps <$> states' =
      steps_after num_sgd_steps_per_step <$> (steps <$> states).
Proof.
  intros Hlen. unfold pmapped_sgd_step, process_multiple_batches.
  rewrite decide_True by exact Hlen.
  destruct (sub_batch_rounds_length batch num_sgd_steps_per_step)
    as [Hall HK].
  destruct (scan_pmap_sgd_step (length batch) _ states Hlen Hall)
    as (I1 & I2 & _).
  destruct (scan pmap_sgd_step states _) as [states' rounds].
  simpl in *. eexists _, _. split; [reflexivity|].
  rewrite length_fmap, length_seq, HK in *.
  split; [congruence|]. split; [reflexivity|exact I2].
Qed.

Lemma pmapped_sgd_step_mismatch states batch :
  length states <> length batch -> pmapped_sgd_step states batch = None.
Proof.
  intros Hlen. unfold pmapped_sgd_step.
  rewrite decide_False by exact Hlen. reflexivity.
Qed.

(** ** The external step *)

(** The update a call of [step] puts to the priority updater, if any. *)
Definition step_puts (reverb_keys : ndarray Z) (extra : list LossExtra)
    : list Event :=
  match replay_client, stack_priorities (reverb_priorities <$> extra) with
  | Some _, Some p => [Put (mkReverbUpdate reverb_keys p)]
  | _, _ => []
  end.

(** The mapping a call of [step] writes to the logger, from the
    throughput it computed and the metrics of replica 0. *)
Definition step_result (self : Learner) (now : Q) (throughput : Q)
    (metrics0 : gmap string (ndarray Q)) : gmap string (ndarray Q) :=
  let elapsed := elapsed_since (timestamp self) now in
  <["steps_per_second" := Scalar throughput]> metrics0 ∪
  (Scalar <$>
     counter_increment (counts self)
       {[ "steps" := inject_Z (Z.of_nat num_sgd_steps_per_step);
          "walltime" := elapsed ]}).

(** The guard of the throughput: the division is reached only with a
    divisor that is not zero, so it never raises. *)
Lemma steps_per_sec_guarded elapsed :
  steps_per_sec elapsed =
  Some (if Qtruthy elapsed
        then (inject_Z (Z.of_nat num_sgd_steps_per_step) / elapsed)%Q
        else 0%Q).
Proof.
  unfold steps_per_sec, py_div, Qtruthy.
  destruct (Qeq_bool elapsed 0); reflexivity.
Qed.

Lemma step_inv self ps now self' events :
  step self ps now = Some (self', events) ->
  exists states' extras current metrics0,
    pmapped_sgd_step (state self) (device ps) = Some (states', extras) /\
    head (steps <$> states') = Some current /\
    head (metrics <$> extras) = Some metrics0 /\
    state self' = states' /\
    timestamp self' = Some now /\
    current_step self' = current /\
    exists throughput,
      steps_per_sec (elapsed_since (timestamp self) now) = Some throughput /\
      events = step_puts (host ps) extras
                 ++ [LogWrite (step_result self now throughput metrics0)].
Proof.
  unfold step, get_from_first_device. intros H.
  destruct (pmapped_sgd_step _ _) as [[states' extras]|] eqn:E1;
    [|discriminate].
  simpl in H.
  destruct (steps_per_sec _) as [throughput|] eqn:E0; [|discriminate].
  simpl in H.
  destruct (head (steps <$> states')) as [current|] eqn:E2; [|discriminate].
  simpl in H.
  destruct (head (metrics <$> extras)) as [metrics0|] eqn:E3; [|discriminate].
  simpl in H. injection H as <- <-.
  exists states', extras, current, metrics0.
  repeat (split; [solve [auto]|]). exists throughput. auto.
Qed.

Lemma step_ok self ps now :
  length (state self) = length (device ps) ->
  state self <> [] ->
  exists self' events,
    step self ps now = Some (self', events) /\
    length (state self') = length (state self) /\
    steps <$> state self' =
      steps_after num_sgd_steps_per_step <$> (steps <$> state self) /\
    head (steps <$> state self') = Some (current_step self').
Proof.
  intros Hlen Hne.
  destruct (pmapped_sgd_step_ok _ _ Hlen)
    as (states' & extras & E & L1 & L2 & St).
  unfold step, get_from_first_device. rewrite E. simpl.
  rewrite steps_per_sec_guarded. simpl.
  destruct states' as [|s1 states'].
  { destruct (state self); [congruence|discriminate]. }
  destruct extras as [|e1 extras].
  { destruct (state self); [congruence|discriminate]. }
  simpl. eexists _, _. split; [reflexivity|]. simpl.
  split; [exact L1|]. split; [exact St|reflexivity].
Qed.

Lemma run_steps_ok : forall inputs self,
  state self <> [] ->
  Forall (λ i : PrefetchingSplit Batch * Q,
            length (device i.1) = length (state self)) inputs ->
  exists self' events,
    run_steps self inputs = Some (self', events) /\
    length (state self') = length (state self) /\
    steps <$> state self' =
      steps_after (length inputs * num_sgd_steps_per_step)
        <$> (steps <$> state self) /\
    (inputs <> [] -> head (steps <$> state self') = Some (current_step self')).
Proof.
  induction inputs as [|[ps now] inputs IH]; intros self Hne Hall.
  - exists self, []. split; [reflexivity|]. split; [reflexivity|].
    split; [|congruence].
    rewrite <- (list_fmap_id (steps <$> state self)) at 1.
    apply list_fmap_ext. intros _ z _. reflexivity.
  - apply Forall_cons in Hall as [Hps Hall]. simpl in Hps.
    destruct (step_ok self ps now (eq_sym Hps) Hne)
      as (self1 & ev1 & E1 & L1 & S1 & C1).
    assert (Hne1 : state self1 <> []).
    { intros H0. rewrite H0 in L1.
      destruct (state self); [congruence|discriminate]. }
    destruct (IH self1 Hne1) as (self2 & ev2 & E2 & L2 & S2 & C2).
    { rewrite L1. exact Hall. }
    exists self2, (ev1 ++ ev2). simpl. rewrite E1. simpl. rewrite E2. simpl.
    split; [reflexivity|]. split; [congruence|]. split.
    + rewrite S2, S1, <- list_fmap_compose.
      apply list_fmap_ext. intros _ z _. cbn [compose length Nat.mul].
      symmetry. apply steps_after_add.
    + intros _. destruct inputs as [|i inputs].
      * simpl in E2. injection E2 as <- <-. exact C1.
      * apply C2. discriminate.
Qed.

Lemma run_steps_from_init random_key inputs :
  Forall (λ i : PrefetchingSplit Batch * Q,
            length (device i.1) = num_devices) inputs ->
  exists self' events,
    run_steps (init random_key) inputs = Some (self', events) /\
    length (state self') = num_devices /\
    Forall (λ s, steps s =
                 int32_wrap (Z.of_nat (length inputs)
                             * Z.of_nat num_sgd_steps_per_step))
           (state self').
Proof.
  intros Hall.
  assert (Hst : state (init random_key) =
                replicate num_devices
                  (mkTrainingState
                     (network_init (random_split3 random_key).1.1)
                     (network_init (random_split3 random_key).1.2)
                     (optimizer_init
                        (network_init (random_split3 random_key).1.1))
                     0 (random_split3 random_key).2)).
  { unfold init. destruct (random_split3 random_key) as [[k1 k2] k3].
    reflexivity. }
  destruct (run_steps_ok inputs (init random_key))
    as (self' & ev & E & L & St & _).
  { rewrite Hst. discriminate. }
  { rewrite Hst, length_replicate. exact Hall. }
  exists self', ev. split; [exact E|].
  rewrite Hst, length_replicate in L. split; [exact L|].
  rewrite Hst, !fmap_replicate in St. cbn [steps] in St.
  apply Forall_forall. intros s Hin.
  apply (list_elem_of_fmap_2 steps) in Hin. rewrite St in Hin.
  apply elem_of_replicate_inv in Hin. rewrite Hin.
  rewrite steps_after_wrap by lia. f_equal. lia.
Qed.

(** C2 (as amended). Every internal step adds one to [steps] in 32-bit
    arithmetic; an external step applies the internal step
    [num_sgd_steps_per_step] times on every replica; and after [M] external
    steps from construction, on inputs sharded over the devices, [steps] is
    [M * K] wrapped to 32 bits on every replica, which is [M * K] itself as
    long as [M * K] is at most [2^31 - 1]. *)
Theorem steps_after_external_steps random_key inputs :
  (1 <= num_sgd_steps_per_step)%nat ->
  Forall (λ i : PrefetchingSplit Batch * Q,
            length (device i.1) = num_devices) inputs ->
  (forall axis s b,
     steps (sgd_step axis s b).1 = int32_wrap (steps s + 1)) /\
  (forall states batch states' extras,
     pmapped_sgd_step states batch = Some (states', extras) ->
     steps <$> states' =
       steps_after num_sgd_steps_per_step <$> (steps <$> states)) /\
  exists self' events,
    run_steps (init random_key) inputs = Some (self', events) /\
    length (state self') = num_devices /\
    Forall (λ s, steps s =
                 int32_wrap (Z.of_nat (length inputs)
                             * Z.of_nat num_sgd_steps_per_step))
           (state self') /\
    (Z.of_nat (length inputs) * Z.of_nat num_sgd_steps_per_step
       < 2147483648 ->
     Forall (λ s, steps s =
                  Z.of_nat (length inputs) * Z.of_nat num_sgd_steps_per_step)
            (state self')).
Proof.
  intros HK Hall. split; [apply sgd_step_steps|]. split.
  { intros states batch states' extras E.
    destruct (decide (length states = length batch)) as [Hlen|Hlen].
    - destruct (pmapped_sgd_step_ok _ _ Hlen) as (? & ? & E' & _ & _ & St).
      congruence.
    - rewrite pmapped_sgd_step_mismatch in E by exact Hlen. discriminate. }
  destruct (run_steps_from_init random_key inputs Hall)
    as (self' & ev & E & L & St).
  exists self', ev. split; [exact E|]. split; [exact L|].
  split; [exact St|].
  intros Hsmall. eapply Forall_impl; [exact St|].
  intros s ->. apply int32_wrap_small. lia.
Qed.

(** ** Replicas stay in sync *)

(** The state every replica of a group reaches in one step from [s]: it is
    built from the group's mean gradients and from [s] alone. *)
Definition synced_state (axis : list (TrainingState * Batch))
    (s : TrainingState) : TrainingState :=
  let grads := pmean_grads ((snd ∘ replica_loss_grads) <$> axis) in
  let uo := optimizer_update grads (opt_state s) in
  let new_params := apply_updates (params s) uo.1 in
  mkTrainingState new_params
    (periodic_update new_params (target_params s)
                     (int32_wrap (steps s + 1)) target_update_period)
    uo.2 (int32_wrap (steps s + 1)) (random_split (rng_key s)).1.

Lemma replica_loss_grads_eq s b :
  replica_loss_grads (s, b) =
  let r := loss_value_and_grad (params s) (target_params s) b (step_key s) in
  (r.1.1, r.2).
Proof.
  unfold replica_loss_grads, step_key. simpl.
  destruct (random_split (rng_key s)) as [k1 k2]. simpl.
  destruct (loss_value_and_grad _ _ _ _) as [[loss extra] grads].
  reflexivity.
Qed.

Lemma group_axis_values {X} (g : Q * Grads -> X) s : forall n batches,
  length batches = n ->
  (g ∘ replica_loss_grads) <$> zip (replicate n s) batches =
  (λ b, g (let r := loss_value_and_grad (params s) (target_params s) b
                                        (step_key s) in (r.1.1, r.2)))
    <$> batches.
Proof.
  induction n as [|n IH]; intros [|b batches] Hlen; simpl in *;
    try discriminate; [reflexivity|].
  rewrite <- replica_loss_grads_eq. f_equal. apply IH. lia.
Qed.

Lemma group_replicated axis s : forall n batches,
  length batches = n ->
  fst <$> ((λ sb, sgd_step axis sb.1 sb.2) <$> zip (replicate n s) batches)
  = replicate n (synced_state axis s).
Proof.
  induction n as [|n IH]; intros [|b batches] Hlen; simpl in *;
    try discriminate; [reflexivity|].
  rewrite sgd_step_state. f_equal. apply IH. lia.
Qed.

Lemma group_total_loss axis : forall states batches,
  Forall (λ e, metrics e !! "total_loss" =
               Some (Scalar (pmean ((fst ∘ replica_loss_grads) <$> axis))))
         (snd <$> ((λ sb, sgd_step axis sb.1 sb.2) <$> zip states batches)).
Proof.
  intros states batches. rewrite <- list_fmap_compose.
  apply Forall_fmap, Forall_forall. intros [s b] _. simpl.
  rewrite sgd_step_extra. simpl. apply lookup_insert_eq.
Qed.

Lemma scan_pmap_replicated n : forall rounds s,
  Forall (λ batches : list Batch, length batches = n) rounds ->
  exists s', (scan pmap_sgd_step (replicate n s) rounds).1 = replicate n s'.
Proof.
  induction rounds as [|batches rounds IH]; intros s Hall.
  - exists s. reflexivity.
  - apply Forall_cons in Hall as [Hb Hall]. rewrite scan_cons.
    cbn [fst]. unfold pmap_sgd_step at 2. cbn [fst].
    rewrite (group_replicated _ s n batches Hb). apply IH, Hall.
Qed.

Lemma pmapped_sgd_step_replicated n s batch states' extras :
  pmapped_sgd_step (replicate n s) batch = Some (states', extras) ->
  exists s', states' = replicate n s'.
Proof.
  unfold pmapped_sgd_step, process_multiple_batches.
  case_decide as Hlen; [|discriminate]. rewrite length_replicate in Hlen.
  destruct (sub_batch_rounds_length batch num_sgd_steps_per_step)
    as [Hall _]. rewrite <- Hlen in Hall.
  destruct (scan_pmap_replicated n _ s Hall) as [s' Hs'].
  destruct (scan pmap_sgd_step _ _) as [st rounds]. simpl in Hs'.
  intros [= <- <-]. exists s'. exact Hs'.
Qed.

Lemma run_steps_replicated n : forall inputs self s self' events,
  state self = replicate n s ->
  run_steps self inputs = Some (self', events) ->
  exists s', state self' = replicate n s'.
Proof.
  induction inputs as [|[ps now] inputs IH]; intros self s self' events Hs.
  - intros [= <- <-]. exists s. exact Hs.
  - simpl. destruct (step self ps now) as [[self1 ev1]|] eqn:E1;
      [|discriminate]. simpl.
    destruct (run_steps self1 inputs) as [[self2 ev2]|] eqn:E2;
      [|discriminate]. simpl. intros [= <- <-].
    apply step_inv in E1 as (st & ex & c & m0 & E1 & _ & _ & Hst & _).
    rewrite Hs in E1.
    apply pmapped_sgd_step_replicated in E1 as [s1 Hs1].
    eapply (IH self1 s1); [congruence|exact E2].
Qed.

(** C5. In a step of a group of replicas holding one state, the loss
    written to the metrics and the gradients handed to the optimizer are the
    means over all replicas, so every replica reaches the same new state;
    the same holds for the multi-step and for every state reached by
    external steps from construction. *)
Theorem replicas_apply_mean_gradients n s batches :
  length batches = n ->
  let outs := λ b, loss_value_and_grad (params s) (target_params s) b
                                       (step_key s) in
  let mean_loss := pmean ((λ b, (outs b).1.1) <$> batches) in
  let mean_grads := pmean_grads ((λ b, (outs b).2) <$> batches) in
  let uo := optimizer_update mean_grads (opt_state s) in
  (exists s',
     (pmap_sgd_step (replicate n s) batches).1 = replicate n s' /\
     params s' = apply_updates (params s) uo.1 /\
     opt_state s' = uo.2) /\
  Forall (λ e, metrics e !! "total_loss" = Some (Scalar mean_loss))
         (pmap_sgd_step (replicate n s) batches).2 /\
  (forall states' extras,
     pmapped_sgd_step (replicate n s) batches = Some (states', extras) ->
     exists s', states' = replicate n s') /\
  (forall random_key inputs self' events,
     run_steps (init random_key) inputs = Some (self', events) ->
     exists s', state self' = replicate num_devices s').
Proof.
  intros Hlen outs mean_loss mean_grads uo.
  pose proof (group_axis_values snd s n batches Hlen) as Hg.
  pose proof (group_axis_values fst s n batches Hlen) as Hl.
  split; [|split; [|split]].
  - exists (synced_state (zip (replicate n s) batches) s).
    unfold pmap_sgd_step. cbn [fst].
    split; [apply group_replicated, Hlen|].
    unfold synced_state. cbn [params opt_state]. rewrite Hg.
    split; reflexivity.
  - unfold pmap_sgd_step. cbn [snd].
    pose proof (group_total_loss (zip (replicate n s) batches)
                  (replicate n s) batches) as H.
    rewrite Hl in H. exact H.
  - intros states' extras. apply pmapped_sgd_step_replicated.
  - intros random_key inputs self' events.
    apply (run_steps_replicated num_devices inputs (init random_key)
             (mkTrainingState
                (network_init (random_split3 random_key).1.1)
                (network_init (random_split3 random_key).1.2)
                (optimizer_init
                   (network_init (random_split3 random_key).1.1))
                0 (random_split3 random_key).2)).
    unfold init. destruct (random_split3 random_key) as [[k1 k2] k3].
    reflexivity.
Qed.

(** ** Random keys *)

Lemma derive_snoc k path (b : bool) :
  derive k (path ++ [b]) =
  if b then (random_split (derive k path)).2
  else (random_split (derive k path)).1.
Proof. unfold derive. rewrite foldl_snoc. reflexivity. Qed.

Lemma internal_steps_rng_key s0 inputs :
  rng_key (internal_steps s0 inputs) =
  derive (rng_key s0) (replicate (length inputs) false).
Proof.
  induction inputs as [|ab inputs IH] using rev_ind; [reflexivity|].
  rewrite internal_steps_snoc, sgd_step_rng_key, IH, length_app.
  simpl. rewrite Nat.add_1_r, replicate_S_end, derive_snoc. reflexivity.
Qed.




(** ** Construction *)

Lemma init_eq random_key :
  init random_key =
  mkLearner
    (replicate num_devices
       (mkTrainingState
          (network_init (random_split3 random_key).1.1)
          (network_init (random_split3 random_key).1.2)
          (optimizer_init (network_init (random_split3 random_key).1.1))
          0 (random_split3 random_key).2))
    None 0 ∅.
Proof.
  unfold init. destruct (random_split3 random_key) as [[k1 k2] k3].
  reflexivity.
Qed.

(** C8. Construction splits the random key into exactly three keys: the
    first initializes [params], the second initializes [target_params] by a
    second call of the same initializer, the third is the live key of the
    state; the step counter starts at 0, the optimizer state is initialized
    from [params], and every device holds this state. The target parameters
    are a draw of their own and not a copy of the parameters: when the
    first two keys of the split differ and the initializer maps different
    keys to different parameters, they differ from the parameters. *)
Theorem init_uses_three_keys random_key :
  let '(key_params, key_target, key_state) := random_split3 random_key in
  state (init random_key) =
    replicate num_devices
      (mkTrainingState (network_init key_params) (network_init key_target)
                       (optimizer_init (network_init key_params))
                       0 key_state) /\
  length (state (init random_key)) = S extra_devices /\
  Forall (λ s, params s = network_init key_params /\
               target_params s = network_init key_target /\
               rng_key s = key_state /\
               steps s = 0)
         (state (init random_key)) /\
  (key_params <> key_target ->
   (forall k k', network_init k = network_init k' -> k = k') ->
   Forall (λ s, target_params s <> params s) (state (init random_key))).
Proof.
  rewrite init_eq. destruct (random_split3 random_key) as [[k1 k2] k3].
  cbn [fst snd state]. split; [reflexivity|].
  split; [apply length_replicate|].
  split; [apply Forall_replicate; auto|].
  intros Hne Hinj. apply Forall_replicate. cbn [target_params params].
  intros Heq. apply Hne. symmetry. apply Hinj, Heq.
Qed.

(** ** Variables and checkpoints *)

(** C10. [get_variables] returns the parameters of replica 0 as a list of
    one element, whatever the names asked for. *)
Theorem get_variables_ignores_names self names names' :
  get_variables self names = get_variables self names' /\
  get_variables self names = (λ s, [params s]) <$> head (state self) /\
  (forall s, get_variables (restore self s) names = Some [params s]) /\
  (forall s rest, state self = s :: rest ->
                  get_variables self names = Some [params s]).
Proof.
  split; [reflexivity|]. split.
  { unfold get_variables, get_from_first_device.
    destruct (state self); reflexivity. }
  split.
  - intros s. reflexivity.
  - intros s rest Hs. unfold get_variables. rewrite Hs. reflexivity.
Qed.

(** C3. [save] returns the state of replica 0. For a learner whose
    replicas all hold the state [s]: [save] returns [s], and [restore] of it
    leaves the learner as it was, [s] on every replica. [restore] of any
    state puts it on every replica. The step numbering goes on from the
    restored count, a 32-bit integer: after [M] further external steps the
    step count of every replica is that count plus [M * K], in 32-bit
    arithmetic, and so exactly that sum as long as it is at most
    [2^31 - 1]. *)
Theorem restore_save_roundtrip self s inputs :
  state self = replicate num_devices s ->
  Forall (λ i : PrefetchingSplit Batch * Q,
            length (device i.1) = num_devices) inputs ->
  save self = Some s /\
  (restore self <$> save self) = Some self /\
  (forall other s0 rest, state other = s0 :: rest -> save other = Some s0) /\
  (forall other s',
     state (restore other s') = replicate num_devices s' /\
     save (restore other s') = Some s') /\
  exists self' events,
    run_steps (restore self s) inputs = Some (self', events) /\
    length (state self') = num_devices /\
    (-2147483648 <= steps s < 2147483648 ->
     Forall (λ s', steps s' =
                   int32_wrap (steps s + Z.of_nat (length inputs)
                                         * Z.of_nat num_sgd_steps_per_step))
            (state self') /\
     (steps s + Z.of_nat (length inputs) * Z.of_nat num_sgd_steps_per_step
        < 2147483648 ->
      Forall (λ s', steps s' =
                    steps s + Z.of_nat (length inputs)
                              * Z.of_nat num_sgd_steps_per_step)
             (state self'))).
Proof.
  intros Hs Hall.
  assert (Hsave : save self = Some s).
  { unfold save. rewrite Hs. reflexivity. }
  split; [exact Hsave|]. split.
  { rewrite Hsave. simpl. f_equal.
    unfold restore, replicate_in_all_devices. rewrite <- Hs.
    destruct self; reflexivity. }
  split; [intros other s0 rest Ho; unfold save; rewrite Ho; reflexivity|].
  split; [intros other s'; split; reflexivity|].
  destruct (run_steps_ok inputs (restore self s))
    as (self' & ev & E & L & St & _).
  { discriminate. }
  { simpl. unfold replicate_in_all_devices. rewrite length_replicate.
    exact Hall. }
  exists self', ev. split; [exact E|].
  unfold restore, replicate_in_all_devices in L, St. cbn [state] in L, St.
  rewrite length_replicate in L. split; [exact L|].
  intros Hrange.
  rewrite !fmap_replicate in St.
  assert (Hw : Forall (λ s', steps s' =
                  int32_wrap (steps s + Z.of_nat (length inputs)
                                        * Z.of_nat num_sgd_steps_per_step))
                      (state self')).
  { apply Forall_forall. intros s' Hin.
    apply (list_elem_of_fmap_2 steps) in Hin. rewrite St in Hin.
    apply elem_of_replicate_inv in Hin. rewrite Hin.
    rewrite steps_after_wrap by exact Hrange. f_equal. lia. }
  split; [exact Hw|].
  intros Hsmall. eapply Forall_impl; [exact Hw|].
  intros s' ->. apply int32_wrap_small. lia.
Qed.

(** ** Priority feedback *)

Lemma merge_leading_vectors {A} (rows : list (list A)) :
  merge_leading (Axis (vector <$> rows)) = vector (concat rows).
Proof.
  unfold merge_leading.
  assert (H1 : forallb is_axis (vector <$> rows) = true).
  { induction rows as [|r rows IH]; [reflexivity|exact IH]. }
  rewrite H1. clear H1. unfold vector. f_equal.
  induction rows as [|r rows IH]; [reflexivity|].
  simpl. rewrite fmap_app. f_equal. exact IH.
Qed.


Lemma step_puts_no_client reverb_keys extra :
  replay_client = None -> step_puts reverb_keys extra = [].
Proof. unfold step_puts. intros ->. reflexivity. Qed.

Lemma run_steps_no_client : forall inputs self self' events,
  replay_client = None ->
  run_steps self inputs = Some (self', events) ->
  Forall (λ e, exists result, e = LogWrite result) events /\
  length events = length inputs.
Proof.
  induction inputs as [|[ps now] inputs IH]; intros self self' events Hc.
  - intros [= <- <-]. split; [constructor|reflexivity].
  - simpl. destruct (step self ps now) as [[self1 ev1]|] eqn:E1;
      [|discriminate]. simpl.
    destruct (run_steps self1 inputs) as [[self2 ev2]|] eqn:E2;
      [|discriminate]. simpl. intros [= <- <-].
    apply step_inv in E1
      as (st & ex & c & m0 & _ & _ & _ & _ & _ & _ & v & _ & Hev).
    rewrite step_puts_no_client in Hev by exact Hc. subst ev1.
    destruct (IH _ _ _ Hc E2) as [IH1 IH2]. simpl. split.
    + constructor; [eexists; reflexivity|exact IH1].
    + congruence.
Qed.

(** C6. Without a replay client, any number of calls of [step] on inputs
    sharded over the replicas all return, put nothing to the priority
    updater and hand the logger one mapping each; and the updater's
    function returns at once, without a store mutation, on any update. *)
Theorem no_client_no_priority_update self inputs :
  replay_client = None ->
  state self <> [] ->
  Forall (λ i : PrefetchingSplit Batch * Q,
            length (device i.1) = length (state self)) inputs ->
  (forall reverb_update, update_priorities reverb_update = None) /\
  (forall reverb_keys extra, step_puts reverb_keys extra = []) /\
  exists self' events,
    run_steps self inputs = Some (self', events) /\
    (forall reverb_update, Put reverb_update ∉ events) /\
    length events = length inputs.
Proof.
  intros Hc Hne Hall.
  split; [intros u; unfold update_priorities; rewrite Hc; reflexivity|].
  split; [intros k e; apply step_puts_no_client, Hc|].
  destruct (run_steps_ok inputs self Hne Hall) as (self' & ev & E & _).
  exists self', ev. split; [exact E|].
  destruct (run_steps_no_client _ _ _ _ Hc E) as [Hlog Hlen].
  split; [|exact Hlen].
  intros u Hin. rewrite Forall_forall in Hlog.
  destruct (Hlog _ Hin) as [r Hr]. discriminate.
Qed.

(** ** Throughput *)

Lemma steps_per_sec_pos elapsed :
  (0 < elapsed)%Q ->
  steps_per_sec elapsed =
  Some (inject_Z (Z.of_nat num_sgd_steps_per_step) / elapsed)%Q.
Proof.
  intros Hpos. rewrite steps_per_sec_guarded. unfold Qtruthy.
  destruct (Qeq_bool elapsed 0) eqn:E; [|reflexivity].
  apply Qeq_bool_iff in E. rewrite E in Hpos.
  exfalso. exact (Qlt_irrefl _ Hpos).
Qed.

Lemma steps_per_sec_zero elapsed :
  (elapsed == 0)%Q -> steps_per_sec elapsed = Some 0%Q.
Proof.
  intros Hz. rewrite steps_per_sec_guarded. unfold Qtruthy.
  apply Qeq_bool_iff in Hz. rewrite Hz. reflexivity.
Qed.

(** The division itself raises on a zero divisor, whatever the dividend. *)
Lemma py_div_zero a b : (b == 0)%Q -> py_div a b = None.
Proof.
  intros Hz. unfold py_div. apply Qeq_bool_iff in Hz. rewrite Hz.
  reflexivity.
Qed.

(** C7. A call of [step] on data sharded over the replicas returns: the
    division of the throughput is never reached with a zero divisor. As
    its last act the call writes a mapping whose [steps_per_second] is
    [K / E] when the elapsed time [E] is positive and 0 when [E] is zero.
    [E] is the reading of the clock minus the previous reading, and is zero
    on the first call, where there is no previous reading. *)
Theorem steps_per_second_reported self ps now :
  length (state self) = length (device ps) ->
  state self <> [] ->
  let E := elapsed_since (timestamp self) now in
  exists self' events result v,
    step self ps now = Some (self', events) /\
    last events = Some (LogWrite result) /\
    result !! "steps_per_second" = Some (Scalar v) /\
    ((0 < E)%Q ->
       v = (inject_Z (Z.of_nat num_sgd_steps_per_step) / E)%Q) /\
    ((E == 0)%Q -> v = 0%Q) /\
    (timestamp self = None -> E = 0%Q /\ v = 0%Q) /\
    (forall t, timestamp self = Some t -> ~ (t == 0)%Q -> E = (now - t)%Q) /\
    timestamp self' = Some now.
Proof.
  intros Hlen Hne E.
  destruct (step_ok self ps now Hlen Hne) as (self' & events & Hstep & _).
  pose proof Hstep as Hinv.
  apply step_inv in Hinv
    as (st & ex & c & m0 & _ & _ & _ & _ & Hts & _ & v & Hv & Hev).
  fold E in Hv.
  exists self', events, (step_result self now v m0), v.
  split; [exact Hstep|].
  split; [subst events; apply last_snoc|].
  split; [unfold step_result; apply lookup_union_Some_l, lookup_insert_eq|].
  split.
  { intros Hpos. rewrite steps_per_sec_pos in Hv by exact Hpos.
    congruence. }
  split.
  { intros Hz. rewrite steps_per_sec_zero in Hv by exact Hz. congruence. }
  split.
  { intros Hnone. subst E. rewrite Hnone in *. cbn [elapsed_since] in *.
    rewrite steps_per_sec_zero in Hv by reflexivity.
    split; [reflexivity|congruence]. }
  split; [|exact Hts].
  intros t Ht Hnz. subst E. rewrite Ht. unfold elapsed_since, Qtruthy.
  destruct (Qeq_bool t 0) eqn:Eb; [|reflexivity].
  apply Qeq_bool_iff in Eb. contradiction.
Qed.

(** ** Post-processing of the auxiliary outputs *)

Lemma ravel_vector {A} (l : list A) : ravel (vector l) = l.
Proof.
  unfold vector. cbn [ravel].
  induction l as [|x l IH]; [reflexivity|].
  cbn [fmap list_fmap map concat ravel app] in *. f_equal. exact IH.
Qed.


Lemma omap_Some_values {X Y} (f : X -> option Y) : forall l (ys : list Y),
  f <$> l = Some <$> ys -> omap f l = ys.
Proof.
  induction l as [|x l IH]; intros [|y ys] H; simpl in *;
    try discriminate; [reflexivity|].
  injection H as Hx Hl. rewrite Hx. simpl. f_equal. apply IH, Hl.
Qed.


Lemma replica_metric es name (vs : list Q) :
  es <> [] ->
  (λ e, metrics e !! name) <$> es = (Some ∘ Scalar) <$> vs ->
  metrics (postprocess_aux (stack_extra es)) !! name =
  Some (Scalar (Qmean vs)).
Proof.
  intros Hne H. unfold postprocess_aux, stack_extra. cbn [metrics].
  rewrite lookup_fmap.
  destruct es as [|e0 es]; [congruence|]. destruct vs as [|v0 vs];
    [discriminate|].
  assert (H0 : metrics e0 !! name = Some (Scalar v0))
    by (injection H as H0 _; exact H0).
  cbn [fmap list_fmap stack_metrics]. rewrite map_lookup_imap, H0.
  cbn [mbind option_bind fmap option_fmap option_map].
  change (metrics e0 :: (metrics <$> es)) with (metrics <$> (e0 :: es)).
  rewrite (omap_Some_values (λ m, m !! name) (metrics <$> (e0 :: es))
             (Scalar <$> (v0 :: vs))).
  - unfold jnp_mean. fold (vector (v0 :: vs)). rewrite ravel_vector.
    reflexivity.
  - rewrite <- !list_fmap_compose. rewrite list_fmap_compose in H.
    rewrite <- list_fmap_compose in H. exact H.
Qed.

(** ** Further properties of the step *)

Lemma div_succ_not_multiple N P :
  0 < P -> 0 <= N -> (N + 1) `mod` P <> 0 -> (N + 1) `div` P = N `div` P.
Proof.
  intros HP HN Hm.
  pose proof (Z.div_mod N P ltac:(lia)) as E1.
  pose proof (Z.mod_pos_bound N P HP) as B1.
  assert (Hr : N `mod` P + 1 < P).
  { destruct (decide (N `mod` P + 1 = P)) as [Heq|]; [|lia].
    exfalso. apply Hm.
    replace (N + 1) with (0 + (N `div` P + 1) * P) by lia.
    rewrite Z.mod_add by lia. reflexivity. }
  symmetry. apply (Z.div_unique_pos (N + 1) P (N `div` P) (N `mod` P + 1));
    lia.
Qed.

Lemma mul_div_of_multiple N P :
  0 < P -> N `mod` P = 0 -> P * (N `div` P) = N.
Proof.
  intros HP Hm. pose proof (Z.div_mod N P ltac:(lia)) as E. lia.
Qed.

Lemma internal_target_closed_form s0 inputs :
  0 < target_update_period ->
  steps s0 = 0 ->
  Z.of_nat (length inputs) < 2147483648 ->
  let N := Z.of_nat (length inputs) in
  target_params (internal_steps s0 inputs) =
  if decide (N < target_update_period) then target_params s0
  else params (internal_steps s0
                 (take (Z.to_nat (target_update_period
                                  * (N `div` target_update_period)))
                       inputs)).
Proof.
  intros HP H0.
  induction inputs as [|ab inputs IH] using rev_ind; intros Hbound.
  - simpl. rewrite decide_True by lia. reflexivity.
  - cbv zeta in *. rewrite length_app in *. cbn [length] in *.
    replace (Z.of_nat (length inputs + 1)) with (Z.of_nat (length inputs) + 1)
      in * by lia.
    set (N := Z.of_nat (length inputs)) in *.
    assert (HN : 0 <= N) by lia.
    rewrite internal_steps_snoc at 1.
    rewrite sgd_step_target, <- internal_steps_snoc.
    rewrite internal_steps_steps, H0, length_app. cbn [length].
    rewrite steps_after_small by lia.
    replace (0 + Z.of_nat (length inputs + 1)) with (N + 1) by lia.
    unfold periodic_update. rewrite jnp_mod_pos by exact HP.
    destruct (decide ((N + 1) `mod` target_update_period = 0)) as [Hm|Hm].
    + rewrite (mul_div_of_multiple _ _ HP Hm).
      assert (Hge : target_update_period <= N + 1).
      { pose proof (Z.div_mod (N + 1) target_update_period ltac:(lia)) as E.
        rewrite Hm in E.
        assert (0 < (N + 1) `div` target_update_period) by nia. nia. }
      rewrite decide_False by lia.
      replace (Z.to_nat (N + 1)) with (length (inputs ++ [ab]))
        by (rewrite length_app; cbn [length]; lia).
      rewrite firstn_all. reflexivity.
    + rewrite (div_succ_not_multiple _ _ HP HN Hm), IH by lia.
      assert (Hle : target_update_period * (N `div` target_update_period)
                    <= N).
      { pose proof (Z.div_mod N target_update_period ltac:(lia)) as E.
        pose proof (Z.mod_pos_bound N target_update_period HP). lia. }
      rewrite (take_app_le inputs [ab]) by lia.
      destruct (decide (N < target_update_period)) as [Hlt|Hnlt].
      * rewrite decide_True; [reflexivity|].
        destruct (decide (N + 1 = target_update_period)) as [Heq|]; [|lia].
        exfalso. apply Hm. rewrite Heq. apply Z.mod_same. lia.
      * rewrite decide_False by lia. reflexivity.
Qed.

(** X1. The target parameters after [N] internal steps from a state with
    step count 0, for [N] up to [2^31 - 1], where the 32-bit step count has
    not wrapped: the parameters as they were after the last step whose
    number is a multiple of the period, and the initial target when no
    such step has been taken yet. *)
Theorem target_params_last_sync s0 inputs :
  0 < target_update_period ->
  steps s0 = 0 ->
  Z.of_nat (length inputs) < 2147483648 ->
  let N := Z.of_nat (length inputs) in
  target_params (internal_steps s0 inputs) =
  if decide (N < target_update_period) then target_params s0
  else params (internal_steps s0
                 (take (Z.to_nat (target_update_period
                                  * (N `div` target_update_period)))
                       inputs)).
Proof. exact (internal_target_closed_form s0 inputs). Qed.

(** ** External steps as runs of internal steps *)

Lemma internal_steps_app s inputs1 inputs2 :
  internal_steps (internal_steps s inputs1) inputs2 =
  internal_steps s (inputs1 ++ inputs2).
Proof. unfold internal_steps. rewrite foldl_app. reflexivity. Qed.

Lemma scan_pmap_internal n : forall rounds s,
  Forall (λ batches : list Batch, length batches = S n) rounds ->
  exists inputs,
    length inputs = length rounds /\
    (scan pmap_sgd_step (replicate (S n) s) rounds).1 =
      replicate (S n) (internal_steps s inputs).
Proof.
  induction rounds as [|batches rounds IH]; intros s Hall.
  - exists []. split; reflexivity.
  - apply Forall_cons in Hall as [Hb Hall]. rewrite scan_cons. cbn [fst].
    unfold pmap_sgd_step at 2. cbn [fst].
    rewrite (group_replicated _ s (S n) batches Hb).
    destruct batches as [|b batches]; [discriminate|].
    set (axis := zip (replicate (S n) s) (b :: batches)).
    destruct (IH (synced_state axis s) Hall) as (inputs & Hlen & Hst).
    exists ((axis, b) :: inputs). split; [simpl; congruence|].
    rewrite Hst. f_equal. unfold internal_steps. cbn [foldl fst snd].
    rewrite sgd_step_state. reflexivity.
Qed.

Lemma pmapped_sgd_step_internal n s batch states' extras :
  pmapped_sgd_step (replicate (S n) s) batch = Some (states', extras) ->
  exists inputs,
    length inputs = num_sgd_steps_per_step /\
    states' = replicate (S n) (internal_steps s inputs).
Proof.
  unfold pmapped_sgd_step, process_multiple_batches.
  case_decide as Hlen; [|discriminate]. rewrite length_replicate in Hlen.
  destruct (sub_batch_rounds_length batch num_sgd_steps_per_step)
    as [Hall HK]. rewrite <- Hlen in Hall.
  destruct (scan_pmap_internal n _ s Hall) as (inputs & Hl & Hs).
  destruct (scan pmap_sgd_step _ _) as [st rounds]. cbn [fst] in Hs.
  intros [= <- <-]. exists inputs. split; [congruence|exact Hs].
Qed.

Lemma run_steps_internal n : forall calls self s self' events,
  state self = replicate (S n) s ->
  run_steps self calls = Some (self', events) ->
  exists inputs,
    length inputs = (length calls * num_sgd_steps_per_step)%nat /\
    state self' = replicate (S n) (internal_steps s inputs).
Proof.
  induction calls as [|[ps now] calls IH]; intros self s self' events Hs.
  - intros [= <- <-]. exists []. split; [reflexivity|exact Hs].
  - simpl. destruct (step self ps now) as [[self1 ev1]|] eqn:E1;
      [|discriminate]. simpl.
    destruct (run_steps self1 calls) as [[self2 ev2]|] eqn:E2;
      [|discriminate]. simpl. intros [= <- <-].
    apply step_inv in E1 as (st & ex & c & m0 & E1 & _ & _ & Hst & _).
    rewrite Hs in E1.
    apply pmapped_sgd_step_internal in E1 as (inputs1 & Hl1 & Hs1).
    destruct (IH self1 (internal_steps s inputs1) self2 ev2
                ltac:(congruence) E2) as (inputs2 & Hl2 & Hs2).
    exists (inputs1 ++ inputs2). split.
    + rewrite length_app. lia.
    + rewrite Hs2, internal_steps_app. reflexivity.
Qed.

(** X2. A run of [M] external steps from construction is, on every
    replica, one and the same run of [M * K] internal steps from the
    initial state. So the key after the run is reached from the initial key
    by [M * K] first-halves of splits whatever the data was, and, as long
    as [M * K] is at most [2^31 - 1], the target parameters are those of
    the last internal step whose number is a multiple of the period, which
    may lie inside an external step. *)
Theorem external_steps_are_internal_steps random_key calls self' events :
  0 < target_update_period ->
  run_steps (init random_key) calls = Some (self', events) ->
  let s0 := mkTrainingState
              (network_init (random_split3 random_key).1.1)
              (network_init (random_split3 random_key).1.2)
              (optimizer_init (network_init (random_split3 random_key).1.1))
              0 (random_split3 random_key).2 in
  let N := (length calls * num_sgd_steps_per_step)%nat in
  exists inputs,
    length inputs = N /\
    state self' = replicate num_devices (internal_steps s0 inputs) /\
    rng_key (internal_steps s0 inputs) =
      derive (random_split3 random_key).2 (replicate N false) /\
    (Z.of_nat N < 2147483648 ->
     target_params (internal_steps s0 inputs) =
       if decide (Z.of_nat N < target_update_period)
       then network_init (random_split3 random_key).1.2
       else params (internal_steps s0
                      (take (Z.to_nat
                               (target_update_period
                                * (Z.of_nat N `div` target_update_period)))
                            inputs))).
Proof.
  intros HP Hrun s0 N.
  destruct (run_steps_internal extra_devices calls (init random_key) s0
              self' events) as (inputs & Hlen & Hst).
  { rewrite init_eq. reflexivity. }
  { exact Hrun. }
  exists inputs. split; [exact Hlen|]. split; [exact Hst|]. split.
  - rewrite internal_steps_rng_key, Hlen. reflexivity.
  - intros Hbound.
    pose proof (internal_target_closed_form s0 inputs HP eq_refl) as H.
    cbv zeta in H. rewrite Hlen in H. apply H. exact Hbound.
Qed.

(** ** What the replicas of a group compute *)

Lemma group_extras axis s : forall n batches,
  length batches = n ->
  snd <$> ((λ sb, sgd_step axis sb.1 sb.2) <$> zip (replicate n s) batches)
  = (λ b,
       let extra := (loss_value_and_grad (params s) (target_params s) b
                                         (step_key s)).1.2 in
       mkLossExtra
         (<["total_loss" :=
              Scalar (pmean ((fst ∘ replica_loss_grads) <$> axis))]>
            (metrics extra))
         (reverb_priorities extra)) <$> batches.
Proof.
  induction n as [|n IH]; intros [|b batches] Hlen; simpl in *;
    try discriminate; [reflexivity|].
  rewrite sgd_step_extra. f_equal. apply IH. lia.
Qed.

(** X3. In a step of a group of replicas holding one state, every replica
    evaluates the loss on its own batch with the same parameters, the same
    target parameters and the same key; its extra is what the loss returned
    there, with [total_loss] set to the group's mean loss. *)
Theorem replicas_share_step_key n s batches :
  length batches = n ->
  let outs := λ b, loss_value_and_grad (params s) (target_params s) b
                                       (step_key s) in
  let mean_loss := pmean ((λ b, (outs b).1.1) <$> batches) in
  (pmap_sgd_step (replicate n s) batches).2 =
  (λ b, mkLossExtra
          (<["total_loss" := Scalar mean_loss]> (metrics (outs b).1.2))
          (reverb_priorities (outs b).1.2)) <$> batches.
Proof.
  intros Hlen outs mean_loss. unfold pmap_sgd_step. cbn [snd].
  rewrite (group_extras _ s n batches Hlen).
  subst mean_loss outs.
  rewrite (group_axis_values fst s n batches Hlen). reflexivity.
Qed.

(** The mean losses of the group at the successive sub-steps. *)
Fixpoint group_mean_losses (states : list TrainingState)
    (rounds : list (list Batch)) : list Q :=
  match rounds with
  | [] => []
  | batches :: rest =>
      pmean ((fst ∘ replica_loss_grads) <$> zip states batches)
      :: group_mean_losses (pmap_sgd_step states batches).1 rest
  end.

Lemma scan_pmap_total_loss n : forall rounds states,
  length states = n ->
  Forall (λ batches : list Batch, length batches = n) rounds ->
  Forall2 (λ (round : list LossExtra) (L : Q),
             length round = n /\
             Forall (λ e, metrics e !! "total_loss" = Some (Scalar L)) round)
          (scan pmap_sgd_step states rounds).2
          (group_mean_losses states rounds).
Proof.
  induction rounds as [|batches rounds IH]; intros states Hn Hall.
  - constructor.
  - apply Forall_cons in Hall as [Hb Hall]. rewrite scan_cons.
    cbn [snd group_mean_losses].
    assert (Hlen : length states = length batches) by congruence.
    destruct (pmap_sgd_step_length states batches Hlen) as [H1 H2].
    constructor.
    + split; [congruence|]. apply group_total_loss.
    + apply IH; [congruence|exact Hall].
Qed.

Lemma column_values {X} (P : X -> LossExtra -> Prop) n i :
  forall (rounds : list (list LossExtra)) (xs : list X),
  (i < n)%nat ->
  Forall2 (λ round x, length round = n /\ Forall (P x) round) rounds xs ->
  Forall2 (λ e x, P x e) (omap (λ round : list LossExtra, round !! i) rounds)
          xs.
Proof.
  intros rounds xs Hi H. induction H as [|round x rounds xs [Hl Hr] _ IH].
  - constructor.
  - cbn [omap list_omap].
    destruct (lookup_lt_is_Some_2 round i ltac:(lia)) as [e He].
    rewrite He. constructor; [|exact IH].
    rewrite Forall_forall in Hr. apply Hr.
    apply list_elem_of_lookup. exists i. exact He.
Qed.

(** X4. After the multi-step on a group, with at least one sub-step, the
    [total_loss] of every replica is the same number: the mean over the
    sub-steps of the group's mean losses. The choice of replica 0 in [step]
    does not matter for it. *)
Theorem total_loss_same_on_all_replicas states batch states' extras :
  (1 <= num_sgd_steps_per_step)%nat ->
  pmapped_sgd_step states batch = Some (states', extras) ->
  let rounds := (λ k, sub_batch num_sgd_steps_per_step k <$> batch)
                  <$> seq 0 num_sgd_steps_per_step in
  length extras = length states /\
  Forall (λ e, metrics e !! "total_loss" =
               Some (Scalar (Qmean (group_mean_losses states rounds))))
         extras.
Proof.
  intros HK Hstep rounds. revert Hstep.
  unfold pmapped_sgd_step, process_multiple_batches.
  case_decide as Hlen; [|discriminate]. fold rounds.
  destruct (sub_batch_rounds_length batch num_sgd_steps_per_step)
    as [Hall HKlen]. fold rounds in Hall, HKlen. rewrite <- Hlen in Hall.
  pose proof (scan_pmap_total_loss (length states) rounds states eq_refl Hall)
    as Hloss.
  destruct (scan pmap_sgd_step states rounds) as [st outs]. cbn [snd] in Hloss.
  intros [= <- <-]. split; [rewrite length_fmap, length_seq; reflexivity|].
  apply Forall_fmap, Forall_forall. intros i Hi. cbn [compose].
  apply elem_of_seq in Hi as [_ Hi]. unfold replica_aux.
  pose proof (column_values
                (λ L e, metrics e !! "total_loss" = Some (Scalar L))
                (length states) i outs _ ltac:(lia) Hloss) as Hcol.
  apply replica_metric.
  - intros Hnil. rewrite Hnil in Hcol. apply Forall2_nil_inv_l in Hcol.
    apply Forall2_length in Hloss. rewrite Hcol in Hloss.
    apply (f_equal length) in Hcol.
    assert (length (group_mean_losses states rounds) = length rounds).
    { clear. revert states.
      induction rounds as [|b r IH]; intros states; simpl; [reflexivity|].
      rewrite IH. reflexivity. }
    simpl in Hcol. lia.
  - clear -Hcol. induction Hcol as [|e L col Ls He _ IH]; [reflexivity|].
    cbn [fmap list_fmap] in *. rewrite He, IH. reflexivity.
Qed.

(** ** When an update is put *)

Lemma scan_pmap_extras (P : LossExtra -> Prop) n :
  (forall axis s b, P (sgd_step axis s b).2) ->
  forall rounds states,
  length states = n ->
  Forall (λ batches : list Batch, length batches = n) rounds ->
  Forall2 (λ (round : list LossExtra) (_ : unit),
             length round = n /\ Forall P round)
          (scan pmap_sgd_step states rounds).2
          (replicate (length rounds) ()).
Proof.
  intros HP. induction rounds as [|batches rounds IH]; intros states Hn Hall.
  - constructor.
  - apply Forall_cons in Hall as [Hb Hall]. rewrite scan_cons.
    cbn [snd length replicate].
    assert (Hlen : length states = length batches) by congruence.
    destruct (pmap_sgd_step_length states batches Hlen) as [H1 H2].
    constructor.
    + split; [congruence|]. unfold pmap_sgd_step. cbn [snd].
      rewrite <- list_fmap_compose. apply Forall_fmap, Forall_forall.
      intros [s b] _. apply HP.
    + apply IH; [congruence|exact Hall].
Qed.

(** The extras of the replicas after the multi-step, when every extra of
    every sub-step satisfies [P]: each is the post-processed stack of a
    non-empty list of extras satisfying [P]. *)
Lemma pmapped_sgd_step_extras (P : LossExtra -> Prop) states batch
    states' extras :
  (forall axis s b, P (sgd_step axis s b).2) ->
  (1 <= num_sgd_steps_per_step)%nat ->
  pmapped_sgd_step states batch = Some (states', extras) ->
  length extras = length states /\
  Forall (λ e, exists column,
            column <> [] /\ Forall P column /\
            e = postprocess_aux (stack_extra column)) extras.
Proof.
  intros HP HK. unfold pmapped_sgd_step, process_multiple_batches.
  case_decide as Hlen; [|discriminate].
  destruct (sub_batch_rounds_length batch num_sgd_steps_per_step)
    as [Hall HKlen]. rewrite <- Hlen in Hall.
  pose proof (scan_pmap_extras P (length states) HP _ states eq_refl Hall)
    as Hex.
  destruct (scan pmap_sgd_step states _) as [st outs]. cbn [snd] in Hex.
  intros [= <- <-]. split; [rewrite length_fmap, length_seq; reflexivity|].
  apply Forall_fmap, Forall_forall. intros i Hi. cbn [compose].
  apply elem_of_seq in Hi as [_ Hi].
  pose proof (column_values (λ _ e, P e) (length states) i outs _
                ltac:(lia) Hex) as Hcol.
  exists (omap (λ round : list LossExtra, round !! i) outs).
  split; [|split; [|reflexivity]].
  - intros Hnil. rewrite Hnil in Hcol. apply Forall2_nil_inv_l in Hcol.
    apply (f_equal length) in Hcol.
    rewrite length_replicate, HKlen in Hcol. simpl in Hcol. lia.
  - clear -Hcol. induction Hcol; constructor; assumption.
Qed.

(** X5. With at least one sub-step and one device: when the loss returns
    no priorities, [step] puts nothing to the updater and only writes to
    the logger, client or not; when the loss returns priorities and a
    client is configured, [step] puts exactly one update, carrying the keys
    of the host part of the data, before it writes to the logger. *)
Theorem step_puts_one_update_or_none self ps now self' events :
  (1 <= num_sgd_steps_per_step)%nat ->
  state self <> [] ->
  step self ps now = Some (self', events) ->
  ((forall p tp b k,
      reverb_priorities (loss_value_and_grad p tp b k).1.2 = None) ->
   exists result, events = [LogWrite result]) /\
  (forall client,
     replay_client = Some client ->
     (forall p tp b k,
        is_Some (reverb_priorities (loss_value_and_grad p tp b k).1.2)) ->
     exists update result,
       events = [Put update; LogWrite result] /\
       keys update = host ps).
Proof.
  intros HK Hne Hstep.
  apply step_inv in Hstep
    as (st & ex & c & m0 & E & _ & _ & _ & _ & _ & v & _ & Hev).
  split.
  - intros Hnone.
    destruct (pmapped_sgd_step_extras
                (λ e, reverb_priorities e = None) _ _ _ _
                ltac:(intros; rewrite sgd_step_extra; apply Hnone) HK E)
      as [Hlen Hall].
    destruct ex as [|e ex].
    { destruct (state self); [congruence|discriminate]. }
    apply Forall_cons in Hall as [(col & Hcol & HP & ->) _].
    destruct col as [|e0 col]; [congruence|].
    apply Forall_cons in HP as [He0 _].
    exists (step_result self now v m0). rewrite Hev.
    unfold step_puts, stack_priorities, postprocess_aux, stack_extra.
    cbn [fmap list_fmap reverb_priorities]. rewrite He0.
    destruct replay_client; reflexivity.
  - intros client Hc Hsome.
    destruct (pmapped_sgd_step_extras
                (λ e, is_Some (reverb_priorities e)) _ _ _ _
                ltac:(intros; rewrite sgd_step_extra; apply Hsome) HK E)
      as [Hlen Hall].
    assert (Hex : Forall (λ e, is_Some (reverb_priorities e)) ex).
    { eapply Forall_impl; [exact Hall|].
      intros e (col & _ & HP & ->).
      unfold postprocess_aux, stack_extra, stack_priorities.
      cbn [reverb_priorities].
      destruct (mapM_is_Some_2 id (reverb_priorities <$> col)) as [l Hl].
      { apply Forall_fmap. exact HP. }
      rewrite Hl. eexists. reflexivity. }
    destruct (mapM_is_Some_2 id (reverb_priorities <$> ex)) as [l Hl].
    { apply Forall_fmap. exact Hex. }
    eexists _, (step_result self now v m0). rewrite Hev.
    unfold step_puts, stack_priorities. rewrite Hc, Hl.
    cbn [fmap option_fmap option_map app].
    split; reflexivity.
Qed.

(** ** Reshaping keeps the values *)

Lemma ravel_merge_leading {A} (a : ndarray A) :
  ravel (merge_leading a) = ravel a.
Proof.
  destruct a as [x|rows]; [reflexivity|].
  cbn [merge_leading]. destruct (forallb is_axis rows) eqn:E; [|reflexivity].
  cbn [ravel]. induction rows as [|row rows IH]; [reflexivity|].
  cbn [forallb] in E. apply andb_prop in E as [Hrow Hrows].
  destruct row as [x|r]; [discriminate|].
  cbn [map rows_of concat ravel]. rewrite map_app, concat_app.
  f_equal. apply IH, Hrows.
Qed.

(** X6. Merging the two leading axes keeps the elements of any array and
    their row-major order. So [postprocess_aux] neither drops nor reorders
    priorities, leaves absent priorities absent, keeps the names of the
    metrics, and replaces each metric by the mean of its elements. *)
Theorem postprocess_aux_keeps_values extra :
  (forall A (a : ndarray A), ravel (merge_leading a) = ravel a) /\
  (ravel <$> reverb_priorities (postprocess_aux extra)) =
    (ravel <$> reverb_priorities extra) /\
  (reverb_priorities extra = None ->
     reverb_priorities (postprocess_aux extra) = None) /\
  (forall name,
     metrics (postprocess_aux extra) !! name =
     (λ a, Scalar (Qmean (ravel a))) <$> (metrics extra !! name)).
Proof.
  split; [intros A a; apply ravel_merge_leading|].
  unfold postprocess_aux. cbn [reverb_priorities metrics].
  split; [|split].
  - destruct (reverb_priorities extra) as [a|]; [|reflexivity].
    cbn. rewrite ravel_merge_leading. reflexivity.
  - intros ->. reflexivity.
  - intros name. rewrite lookup_fmap. reflexivity.
Qed.

(** ** The updates dictionary *)

Lemma dict_of_scalar_items :
  forall (ks : list Z) (vs : list (ndarray Q)) (m : gmap Z (ndarray Q)),
  foldl dict_add (Some m) (zip (Scalar <$> ks) vs)
  = Some (foldl insert_item m (zip ks vs)).
Proof.
  induction ks as [|k ks IH]; intros [|v vs] m; try reflexivity.
  cbn [fmap list_fmap zip zip_with foldl]. apply IH.
Qed.

Lemma foldl_insert_other (k : Z) :
  forall (ks : list Z) (vs : list (ndarray Q)) (m : gmap Z (ndarray Q)),
  k ∉ ks -> foldl insert_item m (zip ks vs) !! k = m !! k.
Proof.
  induction ks as [|k' ks IH]; intros [|v vs] m Hk; try reflexivity.
  apply not_elem_of_cons in Hk as [Hne Hk].
  cbn [zip zip_with foldl]. rewrite IH by exact Hk.
  apply lookup_insert_ne. cbn. congruence.
Qed.

(** X8. The updates dictionary built from scalar keys and their priorities
    holds, for a key that occurs several times, the priority of its last
    occurrence. *)
Theorem last_priority_of_a_key_wins (ks1 ks2 : list Z) (ps1 ps2 : list Q) k p :
  length ks1 = length ps1 ->
  k ∉ ks2 ->
  exists m,
    dict_of_items (zip (Scalar <$> (ks1 ++ k :: ks2))
                       (Scalar <$> (ps1 ++ p :: ps2))) = Some m /\
    m !! k = Some (Scalar p).
Proof.
  intros Hlen Hk. unfold dict_of_items. rewrite dict_of_scalar_items.
  eexists. split; [reflexivity|].
  rewrite fmap_app. cbn [fmap list_fmap].
  rewrite zip_with_app by (rewrite length_fmap; exact Hlen).
  rewrite foldl_app. cbn [zip zip_with foldl].
  rewrite foldl_insert_other by exact Hk. apply lookup_insert_eq.
Qed.

Lemma foldl_insert_size :
  forall (l : list (Z * ndarray Q)) (m : gmap Z (ndarray Q)),
  (size (foldl insert_item m l) <= size m + length l)%nat.
Proof.
  induction l as [|kv l IH]; intros m; cbn [foldl length]; [lia|].
  specialize (IH (insert_item m kv)).
  assert (H1 : (size (insert_item m kv) <= S (size m))%nat).
  { unfold insert_item. rewrite map_size_insert.
    destruct (m !! kv.1); cbn; lia. }
  lia.
Qed.

Lemma foldl_dict_add_None (items : list (ndarray Z * ndarray Q)) :
  foldl dict_add None items = None.
Proof. induction items as [|item items IH]; [reflexivity|exact IH]. Qed.

(** X7. With a replay client, [update_priorities] on keys and priorities
    of shape (replicas, samples), whatever the two shapes are, does not
    raise: it pairs keys and priorities by their position after both have
    been flattened, as many pairs as the smaller of the two has elements,
    and sends the dictionary of these pairs, which has at most that many
    entries. With keys of one more axis, the keys of the pairs are arrays
    and building the dictionary raises. *)
Theorem update_priorities_pairs_by_position client
    (kss : list (list Z)) (pss : list (list Q)) :
  replay_client = Some client ->
  let pairs := zip (concat kss) (Scalar <$> concat pss) in
  update_priorities
    (mkReverbUpdate (Axis (vector <$> kss)) (Axis (vector <$> pss)))
  = Some (Some (mkMutation client replay_table_name
                  (foldl insert_item ∅ pairs))) /\
  length pairs = min (length (concat kss)) (length (concat pss)) /\
  (size (foldl insert_item ∅ pairs) <= length pairs)%nat /\
  (forall ksss : list (list (list Z)),
     concat ksss <> [] -> concat pss <> [] ->
     update_priorities
       (mkReverbUpdate (Axis ((λ rows, Axis (vector <$> rows)) <$> ksss))
                       (Axis (vector <$> pss)))
     = Some None).
Proof.
  intros Hc pairs. split; [|split; [|split]].
  - unfold update_priorities. rewrite Hc. cbn [keys priorities].
    rewrite !merge_leading_vectors. unfold vector. cbn [rows_of].
    unfold dict_of_items. rewrite dict_of_scalar_items. reflexivity.
  - subst pairs. rewrite length_zip_with, !length_fmap. reflexivity.
  - pose proof (foldl_insert_size pairs ∅) as H.
    rewrite map_size_empty in H. exact H.
  - intros ksss Hk Hp. unfold update_priorities. rewrite Hc.
    cbn [keys priorities]. rewrite merge_leading_vectors.
    assert (Hm : merge_leading
                   (Axis ((λ rows : list (list Z), Axis (vector <$> rows))
                            <$> ksss))
                 = Axis (vector <$> concat ksss)).
    { unfold merge_leading.
      assert (H1 : forallb is_axis
                     ((λ rows : list (list Z), Axis (vector <$> rows))
                        <$> ksss) = true).
      { clear. induction ksss as [|r ksss IH]; [reflexivity|exact IH]. }
      rewrite H1. f_equal. clear.
      induction ksss as [|r ksss IH]; [reflexivity|].
      cbn [fmap list_fmap map rows_of concat] in *.
      rewrite fmap_app. f_equal. exact IH. }
    rewrite Hm. unfold vector at 2. cbn [rows_of].
    destruct (concat ksss) as [|ks0 rest]; [congruence|].
    destruct (concat pss) as [|p0 prest]; [congruence|].
    cbn [fmap list_fmap zip zip_with]. unfold dict_of_items, vector.
    cbn [foldl dict_add fst mbind option_bind].
    rewrite foldl_dict_add_None. reflexivity.
Qed.

(** ** Checkpoints of reachable learners *)

(** X9. After any run of external steps from construction, [save] returns
    a state, [restore] of that state leaves the learner exactly as it is,
    and [get_variables] returns the parameters of the saved state. *)
Theorem checkpoint_of_reachable_learner random_key calls self' events names :
  run_steps (init random_key) calls = Some (self', events) ->
  exists s,
    save self' = Some s /\
    restore self' s = self' /\
    get_variables self' names = Some [params s].
Proof.
  intros Hrun.
  destruct (run_steps_replicated num_devices calls (init random_key)
              (mkTrainingState
                 (network_init (random_split3 random_key).1.1)
                 (network_init (random_split3 random_key).1.2)
                 (optimizer_init
                    (network_init (random_split3 random_key).1.1))
                 0 (random_split3 random_key).2)
              self' events) as [s Hs].
  { rewrite init_eq. reflexivity. }
  { exact Hrun. }
  exists s. split; [|split].
  - unfold save. rewrite Hs. reflexivity.
  - unfold restore, replicate_in_all_devices. rewrite <- Hs.
    destruct self'; reflexivity.
  - unfold get_variables. rewrite Hs. reflexivity.
Qed.

(** ** Edge cases of the throughput *)

Lemma Qdiv_pos_neg (a b : Q) : (0 < a)%Q -> (b < 0)%Q -> (a / b < 0)%Q.
Proof.
  destruct a as [an ad], b as [bn bd]. unfold Qlt, Qdiv, Qmult, Qinv.
  cbn [Qnum Qden]. intros Ha Hb.
  destruct bn as [|bp|bp]; cbn [Qnum Qden] in *; try lia.
Qed.

(** X10. The throughput written by a call of [step] that follows another
    one: it is 0 when the previous reading of the clock was exactly 0 or
    equals the new one, and it is negative when the clock went back. *)
Theorem steps_per_second_edge_cases self ps now self' events t :
  step self ps now = Some (self', events) ->
  timestamp self = Some t ->
  exists v result,
    last events = Some (LogWrite result) /\
    result !! "steps_per_second" = Some (Scalar v) /\
    ((t == 0)%Q -> v = 0%Q) /\
    ((now == t)%Q -> v = 0%Q) /\
    (~ (t == 0)%Q -> (now < t)%Q -> (1 <= num_sgd_steps_per_step)%nat ->
       (v < 0)%Q).
Proof.
  intros Hstep Ht.
  apply step_inv in Hstep
    as (st & ex & c & m0 & _ & _ & _ & _ & _ & _ & v & Hv & Hev).
  exists v, (step_result self now v m0).
  split; [subst events; apply last_snoc|].
  split; [unfold step_result; apply lookup_union_Some_l, lookup_insert_eq|].
  rewrite Ht in Hv. unfold elapsed_since, Qtruthy in Hv.
  destruct (Qeq_bool t 0) eqn:Eb; cbn [negb] in Hv.
  - apply Qeq_bool_iff in Eb.
    rewrite steps_per_sec_zero in Hv by reflexivity.
    split; [intros _; congruence|]. split; [intros _; congruence|].
    contradiction.
  - apply Qeq_bool_neq in Eb.
    split; [contradiction|]. split.
    + intros Heq. rewrite steps_per_sec_zero in Hv; [congruence|].
      rewrite Heq. ring.
    + intros _ Hlt HK.
      assert (Hneg : (now - t < 0)%Q).
      { apply (Qplus_lt_l _ _ t). ring_simplify. exact Hlt. }
      rewrite steps_per_sec_guarded in Hv. unfold Qtruthy in Hv.
      destruct (Qeq_bool (now - t) 0) eqn:Ez.
      { apply Qeq_bool_iff in Ez. rewrite Ez in Hneg.
        exfalso. exact (Qlt_irrefl _ Hneg). }
      cbn [negb] in Hv. injection Hv as <-.
      apply Qdiv_pos_neg; [|exact Hneg].
      unfold Qlt. cbn. lia.
Qed.

(** ** The counters *)

Lemma step_counts self ps now self' events :
  step self ps now = Some (self', events) ->
  counts self' =
    counter_increment (counts self)
      {[ "steps" := inject_Z (Z.of_nat num_sgd_steps_per_step);
         "walltime" := elapsed_since (timestamp self) now ]} /\
  timestamp self' = Some now.
Proof.
  unfold step, get_from_first_device. intros H.
  destruct (pmapped_sgd_step _ _) as [[states' extras]|]; [|discriminate].
  simpl in H.
  destruct (steps_per_sec _) as [throughput|]; [|discriminate].
  simpl in H.
  destruct (head (steps <$> states')) as [current|]; [|discriminate].
  simpl in H.
  destruct (head (metrics <$> extras)) as [metrics0|]; [|discriminate].
  simpl in H. injection H as <- _. split; reflexivity.
Qed.

Lemma counter_increment_lookup (c : gmap string Q) (a e : Q) :
  counter_increment c {[ "steps" := a; "walltime" := e ]} !! "walltime"
    = Some (match c !! "walltime" with Some w => (w + e)%Q | None => e end)
  /\
  counter_increment c {[ "steps" := a; "walltime" := e ]} !! "steps"
    = Some (match c !! "steps" with Some n => (n + a)%Q | None => a end).
Proof.
  unfold counter_increment. rewrite !lookup_union_with.
  rewrite lookup_insert_ne by discriminate.
  rewrite lookup_singleton_eq, lookup_insert_eq.
  split.
  - destruct (c !! "walltime"); reflexivity.
  - destruct (c !! "steps"); reflexivity.
Qed.

(** The last reading of the clock in a run of calls that starts after the
    reading [t]. *)
Definition last_reading {X} (t : Q) (calls : list (X * Q)) : Q :=
  foldl (λ _ c, c.2) t calls.

Lemma run_steps_counts : forall calls self self' events t w n,
  timestamp self = Some t ->
  ~ (t == 0)%Q ->
  Forall (λ c : PrefetchingSplit Batch * Q, ~ (c.2 == 0)%Q) calls ->
  counts self !! "walltime" = Some w ->
  counts self !! "steps" = Some n ->
  run_steps self calls = Some (self', events) ->
  exists w' n',
    counts self' !! "walltime" = Some w' /\
    (w' == w + (last_reading t calls - t))%Q /\
    counts self' !! "steps" = Some n' /\
    (n' == n + inject_Z (Z.of_nat (length calls * num_sgd_steps_per_step)))%Q.
Proof.
  induction calls as [|[ps now] calls IH];
    intros self self' events t w n Ht Hnz Hall Hw Hn.
  - intros [= <- <-]. exists w, n. unfold last_reading. cbn.
    split; [exact Hw|]. split; [ring|]. split; [exact Hn|].
    change (inject_Z 0) with 0%Q. ring.
  - apply Forall_cons in Hall as [Hnow Hall]. cbn [snd] in Hnow.
    simpl. destruct (step self ps now) as [[self1 ev1]|] eqn:E1;
      [|discriminate]. simpl.
    destruct (run_steps self1 calls) as [[self2 ev2]|] eqn:E2;
      [|discriminate]. simpl. intros [= <- <-].
    apply step_counts in E1 as [Hc Hts].
    destruct (counter_increment_lookup (counts self)
                (inject_Z (Z.of_nat num_sgd_steps_per_step))
                (elapsed_since (timestamp self) now)) as [Hw1 Hn1].
    rewrite <- Hc, Hw in Hw1. rewrite <- Hc, Hn in Hn1.
    assert (He : elapsed_since (timestamp self) now = (now - t)%Q).
    { rewrite Ht. unfold elapsed_since, Qtruthy.
      destruct (Qeq_bool t 0) eqn:Eb; [|reflexivity].
      apply Qeq_bool_iff in Eb. contradiction. }
    rewrite He in Hw1.
    destruct (IH self1 self2 ev2 now _ _ Hts Hnow Hall Hw1 Hn1 E2)
      as (w' & n' & Hw' & Ew & Hn' & En).
    exists w', n'. split; [exact Hw'|]. split.
    { rewrite Ew. unfold last_reading. cbn [foldl snd]. ring. }
    split; [exact Hn'|].
    rewrite En, Nat2Z.inj_add, inject_Z_plus. ring.
Qed.

(** X11. After a run of external steps from construction, at readings of
    the clock that are not 0: the counter's [walltime] is the time from the
    first call's reading to the last call's reading, so the time before the
    first step completes is not counted, and its [steps] is the number of
    calls times the number of sub-steps. *)
Theorem counters_after_run random_key ps0 t0 calls self' events :
  Forall (λ c : PrefetchingSplit Batch * Q, ~ (c.2 == 0)%Q)
         ((ps0, t0) :: calls) ->
  run_steps (init random_key) ((ps0, t0) :: calls) = Some (self', events) ->
  exists w n,
    counts self' !! "walltime" = Some w /\
    (w == last_reading t0 calls - t0)%Q /\
    counts self' !! "steps" = Some n /\
    (n == inject_Z (Z.of_nat (S (length calls) * num_sgd_steps_per_step)))%Q.
Proof.
  intros Hall Hrun. apply Forall_cons in Hall as [H0 Hall]. cbn [snd] in H0.
  simpl in Hrun.
  destruct (step (init random_key) ps0 t0) as [[self1 ev1]|] eqn:E1;
    [|discriminate]. simpl in Hrun.
  destruct (run_steps self1 calls) as [[self2 ev2]|] eqn:E2;
    [|discriminate]. simpl in Hrun. injection Hrun as <- <-.
  apply step_counts in E1 as [Hc Hts].
  destruct (counter_increment_lookup (counts (init random_key))
              (inject_Z (Z.of_nat num_sgd_steps_per_step))
              (elapsed_since (timestamp (init random_key)) t0))
    as [Hw1 Hn1].
  rewrite <- Hc in Hw1, Hn1. rewrite init_eq in Hw1, Hn1.
  cbn [counts timestamp elapsed_since] in Hw1, Hn1.
  rewrite lookup_empty in Hw1, Hn1.
  destruct (run_steps_counts calls self1 self2 ev2 t0 _ _ Hts H0 Hall
              Hw1 Hn1 E2) as (w & n & Hw & Ew & Hn & En).
  exists w, n. split; [exact Hw|]. split; [rewrite Ew; ring|].
  split; [exact Hn|]. rewrite En. cbn [length].
  replace (Z.of_nat (S (length calls) * num_sgd_steps_per_step))
    with (Z.of_nat num_sgd_steps_per_step
          + Z.of_nat (length calls * num_sgd_steps_per_step)) by lia.
  rewrite inject_Z_plus. ring.
Qed.

(** ** What a call of [step] hands over *)












End Learner.

(** * A concrete learner

    Integer parameters, a batch of rational samples per replica, plain
    gradient descent with unit learning rate, and keys that are paths in the
    binary tree of splits. *)
Module Toy.

Definition network_init (key : positive) : Z := Z.pos key.

(** The loss of a batch is the sum of its samples; the metric is their
    mean, the priority of a sample is its value, and the gradient is the
    distance of the parameters from the integer part of the loss. *)
Definition loss_value_and_grad (params target_params : Z) (batch : list Q)
    (key : positive) : (Q * LossExtra) * Z :=
  ((Qsum batch,
    mkLossExtra {[ "batch_mean" := Scalar (Qmean batch) ]}
                (Some (vector batch))),
   params - Qfloor (Qsum batch)).

Definition optimizer_init (params : Z) : Z := 0.

Definition optimizer_update (grads opt_state : Z) : Z * Z :=
  (- grads, opt_state + 1).

Definition apply_updates (params updates : Z) : Z := params + updates.

Definition random_split (key : positive) : positive * positive :=
  (key~0, key~1)%positive.

Definition random_split3 (key : positive) : positive * positive * positive :=
  (key~0~0, key~0~1, key~1)%positive.

Definition pmean_grads (grads : list Z) : Z :=
  foldr Z.add 0 grads `div` Z.of_nat (length grads).

(** The [k]-th of [K] equal slices of a batch. *)
Definition sub_batch (K k : nat) (batch : list Q) : list Q :=
  take (length batch / K)%nat (drop (k * (length batch / K))%nat batch).

Definition sgd_step (period : Z) :=
  sgd_step loss_value_and_grad optimizer_update apply_updates random_split
           pmean_grads period.

Definition internal_steps (period : Z) :=
  internal_steps loss_value_and_grad optimizer_update apply_updates
                 random_split pmean_grads period.

(** A learner on [S extra_devices] devices. *)
Definition init (extra_devices : nat) (random_key : positive)
    : @Learner Z Z positive :=
  init network_init optimizer_init random_split3 extra_devices random_key.

Definition step (period : Z) (replay_client : option string) (K : nat) :=
  step loss_value_and_grad optimizer_update apply_updates random_split
       pmean_grads period replay_client K sub_batch.

Definition run_steps (period : Z) (replay_client : option string) (K : nat) :=
  run_steps loss_value_and_grad optimizer_update apply_updates random_split
            pmean_grads period replay_client K sub_batch.

(** A state with step count 0 whose target differs from its parameters. *)
Definition state0 : @TrainingState Z Z positive :=
  mkTrainingState 10 100 0 0 1%positive.

(** The operands of a group of one replica holding [s]. *)
Definition alone (s : @TrainingState Z Z positive) (batch : list Q)
    : list (@TrainingState Z Z positive * list Q) * list Q :=
  ([(s, batch)], batch).

Definition input1 := alone state0 [1%Q].
Definition state1 := internal_steps 2 state0 [input1].
Definition input2 := alone state1 [3%Q].
Definition state2 := internal_steps 2 state0 [input1; input2].
Definition input3 := alone state2 [6%Q].

(** Two devices; each replica's batch has four samples, and the host holds
    the keys of the samples. *)
Definition split1 : PrefetchingSplit (list Q) :=
  mkPrefetchingSplit
    (Axis [vector [11; 12; 13; 14]; vector [21; 22; 23; 24]])
    [[1; 2; 3; 4]%Q; [5; 6; 7; 9]%Q].

Definition learner0 : @Learner Z Z positive := init 1 1%positive.

(** The learner after a first external step at time 5. *)
Definition learner1 : @Learner Z Z positive :=
  match step 2 (Some "reverb") 2 learner0 split1 5%Q with
  | Some (self, _) => self
  | None => learner0
  end.

(** A loss like [loss_value_and_grad] that returns no priorities. *)
Definition loss_without_priorities (params target_params : Z)
    (batch : list Q) (key : positive) : (Q * LossExtra) * Z :=
  let '((loss, extra), grads) :=
    loss_value_and_grad params target_params batch key in
  ((loss, mkLossExtra (metrics extra) None), grads).


End Toy.

(** * The theorems on the concrete learner *)

(** With period 2 on the concrete learner: the target is still the initial
    one after step 1, and after step 2 it is the parameters of step 2. *)
Lemma target_params_periodic_sync_witness :
  0 < 2 /\
  steps Toy.state0 = 0 /\
  target_params Toy.state1 = target_params Toy.state0 /\
  target_params Toy.state2 = params Toy.state2 /\
  target_params
    (Toy.internal_steps 2 Toy.state0 [Toy.input1; Toy.input2; Toy.input3]) =
    params Toy.state2.
Proof.
  assert (Hpos : 0 < 2) by lia.
  destruct (target_params_periodic_sync
              Toy.loss_value_and_grad Toy.optimizer_update Toy.apply_updates
              Toy.random_split Toy.pmean_grads 2 Toy.state0 [] Toy.input1
              Hpos) as (_ & _ & _ & H).
  destruct (H eq_refl eq_refl Toy.input1 Toy.input2 Toy.input3)
    as (H1 & H2 & H3).
  split; [exact Hpos|]. split; [reflexivity|].
  split; [exact H1|]. split; [exact H2|exact H3].
Defined.

(** Two external steps of two sub-steps each on two devices: [steps] is 4
    on both. *)
Lemma steps_after_external_steps_witness :
  (1 <= 2)%nat /\
  Forall (λ i : PrefetchingSplit (list Q) * Q,
            length (device i.1) = num_devices 1)
         [(Toy.split1, 5%Q); (Toy.split1, 7%Q)] /\
  exists self' events,
    Toy.run_steps 2 (Some "reverb") 2 Toy.learner0
                  [(Toy.split1, 5%Q); (Toy.split1, 7%Q)]
      = Some (self', events) /\
    length (state self') = 2%nat /\
    Forall (λ s, steps s = 4) (state self').
Proof.
  assert (HK : (1 <= 2)%nat) by lia.
  assert (Hall : Forall (λ i : PrefetchingSplit (list Q) * Q,
                           length (device i.1) = num_devices 1)
                        [(Toy.split1, 5%Q); (Toy.split1, 7%Q)])
    by (repeat constructor).
  split; [exact HK|]. split; [exact Hall|].
  destruct (steps_after_external_steps
              Toy.network_init Toy.loss_value_and_grad Toy.optimizer_init
              Toy.optimizer_update Toy.apply_updates Toy.random_split
              Toy.random_split3 Toy.pmean_grads 2 (Some "reverb"%string) 2
              Toy.sub_batch 1 1%positive
              [(Toy.split1, 5%Q); (Toy.split1, 7%Q)] HK Hall)
    as (_ & _ & self' & events & E & L & _ & St).
  exists self', events. split; [exact E|]. split; [exact L|].
  apply St. reflexivity.
Defined.

(** C2 as stated fails: after [2^31] external steps of one sub-step each
    from construction, [steps] is [-2^31] on every replica, not [2^31]. *)
Lemma steps_wrap_after_2_31_steps :
  exists self' events,
    Toy.run_steps 2 None 1 Toy.learner0
                  (replicate (Z.to_nat 2147483648) (Toy.split1, 5%Q))
      = Some (self', events) /\
    length (state self') = 2%nat /\
    Forall (λ s, steps s = -2147483648) (state self') /\
    Z.of_nat (length (replicate (Z.to_nat 2147483648) (Toy.split1, 5%Q)))
      * Z.of_nat 1 = 2147483648 /\
    -2147483648 <> 2147483648.
Proof.
  destruct (run_steps_from_init
              Toy.network_init Toy.loss_value_and_grad Toy.optimizer_init
              Toy.optimizer_update Toy.apply_updates Toy.random_split
              Toy.random_split3 Toy.pmean_grads 2 (@None string) 1
              Toy.sub_batch 1 1%positive
              (replicate (Z.to_nat 2147483648) (Toy.split1, 5%Q)))
    as (self' & events & E & L & St).
  { apply Forall_replicate. reflexivity. }
  exists self', events. split; [exact E|]. split; [exact L|].
  rewrite length_replicate, Z2Nat.id in * by lia.
  split; [exact St|]. split; [reflexivity|discriminate].
Qed.

(** Save and restore on the concrete learner after its first step: the
    checkpoint is the state of both replicas, with step count 2, and one
    more external step of two sub-steps gives the step count 4. *)
Lemma restore_save_roundtrip_witness :
  state Toy.learner1 =
    replicate (num_devices 1) (mkTrainingState 12 12 2 2 12%positive) /\
  Forall (λ i : PrefetchingSplit (list Q) * Q,
            length (device i.1) = num_devices 1) [(Toy.split1, 7%Q)] /\
  save Toy.learner1 = Some (mkTrainingState 12 12 2 2 12%positive) /\
  (restore 1 Toy.learner1 <$> save Toy.learner1) = Some Toy.learner1 /\
  exists self' events,
    Toy.run_steps 2 (Some "reverb") 2
        (restore 1 Toy.learner1 (mkTrainingState 12 12 2 2 12%positive))
        [(Toy.split1, 7%Q)]
      = Some (self', events) /\
    length (state self') = 2%nat /\
    Forall (λ s', steps s' = 2 + 1 * 2) (state self').
Proof.
  assert (Hs : state Toy.learner1 =
               replicate (num_devices 1)
                         (mkTrainingState 12 12 2 2 12%positive))
    by (vm_compute; reflexivity).
  assert (Hall : Forall (λ i : PrefetchingSplit (list Q) * Q,
                           length (device i.1) = num_devices 1)
                        [(Toy.split1, 7%Q)])
    by (repeat constructor).
  destruct (restore_save_roundtrip
              Toy.loss_value_and_grad Toy.optimizer_update Toy.apply_updates
              Toy.random_split Toy.pmean_grads 2 (Some "reverb"%string) 2
              Toy.sub_batch 1 Toy.learner1
              (mkTrainingState 12 12 2 2 12%positive) _ Hs Hall)
    as (H1 & H2 & _ & _ & self' & events & E & L & St).
  split; [exact Hs|]. split; [exact Hall|].
  split; [exact H1|]. split; [exact H2|].
  exists self', events. split; [exact E|]. split; [exact L|].
  destruct St as [_ St]; [cbn [steps]; lia|]. apply St. reflexivity.
Defined.

(** The numbering wraps: restored at the step count [2^31 - 1], one
    external step of one sub-step gives the step count [-2^31]. *)
Lemma restored_count_wraps :
  exists self' events,
    Toy.run_steps 2 None 1
        (restore 1 Toy.learner0
                 (mkTrainingState 12 12 2 2147483647 12%positive))
        [(Toy.split1, 7%Q)]
      = Some (self', events) /\
    steps <$> state self' = [-2147483648; -2147483648].
Proof. eexists _, _. split; vm_compute; reflexivity. Qed.


(** A group of two replicas holding the same state, on different batches:
    both reach the same state. *)
Lemma replicas_apply_mean_gradients_witness :
  length [[1; 2]%Q; [5; 6]%Q] = 2%nat /\
  (exists s',
     (pmap_sgd_step Toy.loss_value_and_grad Toy.optimizer_update
        Toy.apply_updates Toy.random_split Toy.pmean_grads 2
        (replicate 2 Toy.state0) [[1; 2]%Q; [5; 6]%Q]).1 = replicate 2 s') /\
  Forall (λ e, metrics e !! "total_loss" = Some (Scalar 7%Q))
    (pmap_sgd_step Toy.loss_value_and_grad Toy.optimizer_update
       Toy.apply_updates Toy.random_split Toy.pmean_grads 2
       (replicate 2 Toy.state0) [[1; 2]%Q; [5; 6]%Q]).2.
Proof.
  assert (Hlen : length [[1; 2]%Q; [5; 6]%Q] = 2%nat) by reflexivity.
  destruct (replicas_apply_mean_gradients (Client := string)
              Toy.network_init Toy.loss_value_and_grad Toy.optimizer_init
              Toy.optimizer_update Toy.apply_updates Toy.random_split
              Toy.random_split3 Toy.pmean_grads 2 None 2 Toy.sub_batch 1
              2 Toy.state0 [[1; 2]%Q; [5; 6]%Q] Hlen)
    as ((s' & H1 & _) & H2 & _).
  split; [exact Hlen|]. split; [exists s'; exact H1|exact H2].
Defined.

(** A hundred external steps without a replay client. *)
Lemma no_client_no_priority_update_witness :
  @None string = None /\
  state Toy.learner0 <> [] /\
  Forall (λ i : PrefetchingSplit (list Q) * Q,
            length (device i.1) = length (state Toy.learner0))
         (replicate 100 (Toy.split1, 5%Q)) /\
  (forall reverb_update,
     update_priorities (@None string) "priority_table" reverb_update = None) /\
  exists self' events,
    Toy.run_steps 2 None 2 Toy.learner0 (replicate 100 (Toy.split1, 5%Q))
      = Some (self', events) /\
    (forall reverb_update, Put reverb_update ∉ events) /\
    length events = 100%nat.
Proof.
  assert (Hne : state Toy.learner0 <> []) by discriminate.
  assert (Hall : Forall (λ i : PrefetchingSplit (list Q) * Q,
                           length (device i.1) = length (state Toy.learner0))
                        (replicate 100 (Toy.split1, 5%Q)))
    by (apply Forall_replicate; reflexivity).
  destruct (no_client_no_priority_update
              Toy.loss_value_and_grad Toy.optimizer_update Toy.apply_updates
              Toy.random_split Toy.pmean_grads 2 (@None string)
              "priority_table" 2 Toy.sub_batch Toy.learner0
              (replicate 100 (Toy.split1, 5%Q)) eq_refl Hne Hall)
    as (H1 & _ & self' & events & E & H2 & H3).
  split; [reflexivity|]. split; [exact Hne|]. split; [exact Hall|].
  split; [exact H1|]. exists self', events.
  split; [exact E|]. split; [exact H2|exact H3].
Defined.

(** The first external step and the second one, two seconds later, with
    two sub-steps: the first returns and reports 0, the second reports one
    step per second. *)
Lemma steps_per_second_reported_witness :
  length (state Toy.learner0) = length (device Toy.split1) /\
  state Toy.learner0 <> [] /\
  (exists self' events result,
     Toy.step 2 (Some "reverb") 2 Toy.learner0 Toy.split1 5%Q
       = Some (self', events) /\
     last events = Some (LogWrite result) /\
     result !! "steps_per_second" = Some (Scalar 0%Q)) /\
  (exists self' events result,
     Toy.step 2 (Some "reverb") 2 Toy.learner1 Toy.split1 7%Q
       = Some (self', events) /\
     elapsed_since (timestamp Toy.learner1) 7%Q = (7 - 5)%Q /\
     last events = Some (LogWrite result) /\
     result !! "steps_per_second" = Some (Scalar (inject_Z 2 / (7 - 5))%Q)).
Proof.
  assert (Hlen : length (state Toy.learner0) = length (device Toy.split1))
    by reflexivity.
  assert (Hne : state Toy.learner0 <> []) by discriminate.
  split; [exact Hlen|]. split; [exact Hne|]. split.
  - destruct (steps_per_second_reported
                Toy.loss_value_and_grad Toy.optimizer_update
                Toy.apply_updates Toy.random_split Toy.pmean_grads 2
                (Some "reverb"%string) 2 Toy.sub_batch Toy.learner0
                Toy.split1 5%Q Hlen Hne)
      as (self' & events & result & v & E & H1 & H2 & _ & _ & H3 & _).
    exists self', events, result. split; [exact E|]. split; [exact H1|].
    destruct (H3 eq_refl) as [_ ->]. exact H2.
  - assert (Hlen1 : length (state Toy.learner1) = length (device Toy.split1))
      by reflexivity.
    assert (Hne1 : state Toy.learner1 <> []) by discriminate.
    destruct (steps_per_second_reported
                Toy.loss_value_and_grad Toy.optimizer_update
                Toy.apply_updates Toy.random_split Toy.pmean_grads 2
                (Some "reverb"%string) 2 Toy.sub_batch Toy.learner1
                Toy.split1 7%Q Hlen1 Hne1)
      as (self' & events & result & v & E & H1 & H2 & H3 & _).
    exists self', events, result. split; [exact E|].
    split; [reflexivity|]. split; [exact H1|].
    rewrite H3 in H2 by reflexivity. exact H2.
Defined.

(** Without the guard the first call would raise: the division by an
    elapsed time of zero does. *)
Lemma unguarded_division_raises :
  py_div (inject_Z 2) (elapsed_since None 5%Q) = None.
Proof. reflexivity. Qed.

(** The first external step reports a throughput of 0. *)
Lemma first_step_reports_zero :
  exists self' update result,
    Toy.step 2 (Some "reverb") 2 Toy.learner0 Toy.split1 5%Q
      = Some (self', [Put update; LogWrite result]) /\
    result !! "steps_per_second" = Some (Scalar 0%Q).
Proof.
  eexists _, _, _. split; [vm_compute; reflexivity|].
  vm_compute. reflexivity.
Qed.




(** Construction of the concrete learner from the key 1: the keys 4 and 5
    give parameters and target parameters that differ. *)
Lemma init_uses_three_keys_witness :
  (4 <> 5)%positive /\
  (forall k k', Toy.network_init k = Toy.network_init k' -> k = k') /\
  Forall (λ s, target_params s <> params s) (state Toy.learner0).
Proof.
  assert (Hne : (4 <> 5)%positive) by discriminate.
  assert (Hinj : forall k k',
            Toy.network_init k = Toy.network_init k' -> k = k').
  { intros k k' H. injection H as H. exact H. }
  split; [exact Hne|]. split; [exact Hinj|].
  pose proof (init_uses_three_keys Toy.network_init Toy.optimizer_init
                Toy.random_split3 1 1%positive) as H.
  cbn [Toy.random_split3] in H. destruct H as (_ & _ & _ & H).
  exact (H Hne Hinj).
Defined.

(** The initial target parameters are a second draw of the initializer,
    not a copy of the initial parameters: here they differ. *)
Lemma init_target_is_a_second_draw :
  Forall (λ s, params s = 4 /\ target_params s = 5 /\ steps s = 0)
         (state Toy.learner0).
Proof. repeat constructor. Qed.

(** * Further properties on the concrete learner *)

(** With period 2, after three internal steps the target holds the
    parameters of step 2. *)
Lemma target_params_last_sync_witness :
  0 < 2 /\
  steps Toy.state0 = 0 /\
  Z.of_nat (length [Toy.input1; Toy.input2; Toy.input3]) < 2147483648 /\
  target_params
    (Toy.internal_steps 2 Toy.state0 [Toy.input1; Toy.input2; Toy.input3]) =
    params (Toy.internal_steps 2 Toy.state0 [Toy.input1; Toy.input2]).
Proof.
  assert (Hpos : 0 < 2) by lia.
  assert (Hlen : Z.of_nat (length [Toy.input1; Toy.input2; Toy.input3])
                 < 2147483648) by (cbn; lia).
  split; [exact Hpos|]. split; [reflexivity|]. split; [exact Hlen|].
  exact (target_params_last_sync
           Toy.loss_value_and_grad Toy.optimizer_update Toy.apply_updates
           Toy.random_split Toy.pmean_grads 2 Toy.state0
           [Toy.input1; Toy.input2; Toy.input3] Hpos eq_refl Hlen).
Defined.

(** Two external steps of two sub-steps are four internal steps. *)
Lemma external_steps_are_internal_steps_witness :
  0 < 2 /\
  exists self' events inputs,
    Toy.run_steps 2 (Some "reverb") 2 Toy.learner0
                  [(Toy.split1, 5%Q); (Toy.split1, 7%Q)]
      = Some (self', events) /\
    length inputs = 4%nat /\
    state self' =
      replicate 2 (Toy.internal_steps 2 (mkTrainingState 4 5 0 0 3%positive)
                                      inputs) /\
    rng_key (Toy.internal_steps 2 (mkTrainingState 4 5 0 0 3%positive)
                                inputs) = 48%positive.
Proof.
  assert (Hpos : 0 < 2) by lia. split; [exact Hpos|].
  destruct (Toy.run_steps 2 (Some "reverb"%string) 2 Toy.learner0
              [(Toy.split1, 5%Q); (Toy.split1, 7%Q)])
    as [[self' events]|] eqn:E; [|vm_compute in E; discriminate].
  destruct (external_steps_are_internal_steps
              Toy.network_init Toy.loss_value_and_grad Toy.optimizer_init
              Toy.optimizer_update Toy.apply_updates Toy.random_split
              Toy.random_split3 Toy.pmean_grads 2 (Some "reverb"%string) 2
              Toy.sub_batch 1 1%positive
              [(Toy.split1, 5%Q); (Toy.split1, 7%Q)] self' events Hpos E)
    as (inputs & Hlen & Hst & Hkey & _).
  exists self', events, inputs.
  split; [reflexivity|]. split; [exact Hlen|]. split; [exact Hst|exact Hkey].
Defined.

(** Two replicas on different batches: both extras come from the loss
    evaluated with the key 3. *)
Lemma replicas_share_step_key_witness :
  length [[1; 2]%Q; [5; 6]%Q] = 2%nat /\
  step_key Toy.random_split Toy.state0 = 3%positive /\
  (pmap_sgd_step Toy.loss_value_and_grad Toy.optimizer_update
     Toy.apply_updates Toy.random_split Toy.pmean_grads 2
     (replicate 2 Toy.state0) [[1; 2]%Q; [5; 6]%Q]).2
  = (λ b, mkLossExtra
            (<["total_loss" := Scalar 7%Q]>
               (metrics (Toy.loss_value_and_grad 10 100 b 3%positive).1.2))
            (reverb_priorities
               (Toy.loss_value_and_grad 10 100 b 3%positive).1.2))
      <$> [[1; 2]%Q; [5; 6]%Q].
Proof.
  assert (Hlen : length [[1; 2]%Q; [5; 6]%Q] = 2%nat) by reflexivity.
  split; [exact Hlen|]. split; [reflexivity|].
  exact (replicas_share_step_key
           Toy.loss_value_and_grad Toy.optimizer_update Toy.apply_updates
           Toy.random_split Toy.pmean_grads 2 2 Toy.state0
           [[1; 2]%Q; [5; 6]%Q] Hlen).
Defined.

(** The multi-step of the concrete learner: both replicas hold the
    [total_loss] 37/4, the mean of the group losses 7 and 23/2. *)
Lemma total_loss_same_on_all_replicas_witness :
  (1 <= 2)%nat /\
  exists states' extras,
    pmapped_sgd_step Toy.loss_value_and_grad Toy.optimizer_update
      Toy.apply_updates Toy.random_split Toy.pmean_grads 2 2 Toy.sub_batch
      (state Toy.learner0) (device Toy.split1) = Some (states', extras) /\
    length extras = 2%nat /\
    Forall (λ e, metrics e !! "total_loss" = Some (Scalar (37 # 4)%Q)) extras.
Proof.
  assert (HK : (1 <= 2)%nat) by lia. split; [exact HK|].
  destruct (pmapped_sgd_step Toy.loss_value_and_grad Toy.optimizer_update
              Toy.apply_updates Toy.random_split Toy.pmean_grads 2 2
              Toy.sub_batch (state Toy.learner0) (device Toy.split1))
    as [[states' extras]|] eqn:E; [|vm_compute in E; discriminate].
  destruct (total_loss_same_on_all_replicas
              Toy.loss_value_and_grad Toy.optimizer_update Toy.apply_updates
              Toy.random_split Toy.pmean_grads 2 2 Toy.sub_batch
              (state Toy.learner0) (device Toy.split1) states' extras HK E)
    as [Hlen Hall].
  exists states', extras. split; [reflexivity|].
  split; [exact Hlen|exact Hall].
Defined.

(** With the concrete loss, a step puts one update and then writes; with
    the loss without priorities it only writes, client or not. *)
Lemma step_puts_one_update_or_none_witness :
  (1 <= 2)%nat /\
  state Toy.learner0 <> [] /\
  (exists self' update result,
     Toy.step 2 (Some "reverb") 2 Toy.learner0 Toy.split1 5%Q
       = Some (self', [Put update; LogWrite result]) /\
     keys update = host Toy.split1) /\
  (exists self' result,
     step Toy.loss_without_priorities Toy.optimizer_update Toy.apply_updates
          Toy.random_split Toy.pmean_grads 2 (Some "reverb"%string) 2
          Toy.sub_batch Toy.learner0 Toy.split1 5%Q
       = Some (self', [LogWrite result])).
Proof.
  assert (HK : (1 <= 2)%nat) by lia.
  assert (Hne : state Toy.learner0 <> []) by discriminate.
  split; [exact HK|]. split; [exact Hne|]. split.
  - destruct (Toy.step 2 (Some "reverb"%string) 2 Toy.learner0 Toy.split1 5%Q)
      as [[self' events]|] eqn:E; [|vm_compute in E; discriminate].
    destruct (step_puts_one_update_or_none
                Toy.loss_value_and_grad Toy.optimizer_update
                Toy.apply_updates Toy.random_split Toy.pmean_grads 2
                (Some "reverb"%string) 2 Toy.sub_batch Toy.learner0
                Toy.split1 5%Q self' events HK Hne E) as [_ H].
    destruct (H "reverb"%string eq_refl) as (update & result & -> & Hk).
    { intros p tp b k. eexists. reflexivity. }
    exists self', update, result. split; [reflexivity|exact Hk].
  - destruct (step Toy.loss_without_priorities Toy.optimizer_update
                Toy.apply_updates Toy.random_split Toy.pmean_grads 2
                (Some "reverb"%string) 2 Toy.sub_batch Toy.learner0
                Toy.split1 5%Q)
      as [[self' events]|] eqn:E; [|vm_compute in E; discriminate].
    destruct (step_puts_one_update_or_none
                Toy.loss_without_priorities Toy.optimizer_update
                Toy.apply_updates Toy.random_split Toy.pmean_grads 2
                (Some "reverb"%string) 2 Toy.sub_batch Toy.learner0
                Toy.split1 5%Q self' events HK Hne E) as [H _].
    destruct H as [result ->]; [intros p tp b k; reflexivity|].
    exists self', result. reflexivity.
Defined.

(** Keys of shape (2, 2) with priorities of shape (2, 1): the two
    priorities go to the first two keys, both of replica 0. With the key
    11 sampled twice the dictionary has one entry for it. Keys of shape
    (1, 1, 2) are not hashable. *)
Lemma update_priorities_pairs_by_position_witness :
  Some "reverb"%string = Some "reverb"%string /\
  update_priorities (Some "reverb"%string) "priority_table"
    (mkReverbUpdate (Axis [vector [11; 12]; vector [21; 22]])
                    (Axis [vector [1%Q]; vector [5%Q]]))
  = Some (Some (mkMutation "reverb"%string "priority_table"
                  (<[12 := Scalar 5%Q]> (<[11 := Scalar 1%Q]> ∅)))) /\
  update_priorities (Some "reverb"%string) "priority_table"
    (mkReverbUpdate (Axis [vector [11; 11]]) (Axis [vector [1; 5]%Q]))
  = Some (Some (mkMutation "reverb"%string "priority_table"
                  (<[11 := Scalar 5%Q]> (<[11 := Scalar 1%Q]> ∅)))) /\
  update_priorities (Some "reverb"%string) "priority_table"
    (mkReverbUpdate (Axis [Axis [vector [11; 12]]]) (Axis [vector [1; 5]%Q]))
  = Some None.
Proof.
  split; [reflexivity|]. split; [|split].
  - exact (proj1 (update_priorities_pairs_by_position
                    (Some "reverb"%string) "priority_table" "reverb"%string
                    [[11; 12]; [21; 22]] [[1%Q]; [5%Q]] eq_refl)).
  - exact (proj1 (update_priorities_pairs_by_position
                    (Some "reverb"%string) "priority_table" "reverb"%string
                    [[11; 11]] [[1; 5]%Q] eq_refl)).
  - destruct (update_priorities_pairs_by_position
                (Some "reverb"%string) "priority_table" "reverb"%string
                [[11; 12]] [[1; 5]%Q] eq_refl) as (_ & _ & _ & H).
    apply (H [[[11; 12]]]); discriminate.
Defined.

(** The key 11 sampled twice: the dictionary holds the later priority. *)
Lemma last_priority_of_a_key_wins_witness :
  length [11; 12] = length [1%Q; 2%Q] /\
  (11 ∉ [13]) /\
  exists m,
    dict_of_items (zip (Scalar <$> [11; 12; 11; 13])
                       (Scalar <$> [1; 2; 3; 4]%Q)) = Some m /\
    m !! 11 = Some (Scalar 3%Q).
Proof.
  assert (Hk : 11 ∉ [13]).
  { intros H. apply list_elem_of_singleton in H. discriminate. }
  split; [reflexivity|]. split; [exact Hk|].
  exact (last_priority_of_a_key_wins [11; 12] [13] [1%Q; 2%Q] [4%Q] 11 3%Q
           eq_refl Hk).
Defined.

(** A checkpoint of the concrete learner after two external steps. *)
Lemma checkpoint_of_reachable_learner_witness :
  exists self' events s,
    Toy.run_steps 2 (Some "reverb") 2 Toy.learner0
                  [(Toy.split1, 5%Q); (Toy.split1, 7%Q)]
      = Some (self', events) /\
    save self' = Some s /\
    restore 1 self' s = self' /\
    get_variables self' ["policy"] = Some [params s].
Proof.
  destruct (Toy.run_steps 2 (Some "reverb"%string) 2 Toy.learner0
              [(Toy.split1, 5%Q); (Toy.split1, 7%Q)])
    as [[self' events]|] eqn:E; [|vm_compute in E; discriminate].
  destruct (checkpoint_of_reachable_learner
              Toy.network_init Toy.loss_value_and_grad Toy.optimizer_init
              Toy.optimizer_update Toy.apply_updates Toy.random_split
              Toy.random_split3 Toy.pmean_grads 2 (Some "reverb"%string) 2
              Toy.sub_batch 1 1%positive
              [(Toy.split1, 5%Q); (Toy.split1, 7%Q)] self' events
              ["policy"%string] E) as (s & H1 & H2 & H3).
  exists self', events, s. split; [reflexivity|].
  split; [exact H1|]. split; [exact H2|exact H3].
Defined.

(** A second step whose reading of the clock, 3, is before the first
    one's, 5: the throughput written is negative. *)
Lemma steps_per_second_edge_cases_witness :
  timestamp Toy.learner1 = Some 5%Q /\
  exists self' events v result,
    Toy.step 2 (Some "reverb") 2 Toy.learner1 Toy.split1 3%Q
      = Some (self', events) /\
    last events = Some (LogWrite result) /\
    result !! "steps_per_second" = Some (Scalar v) /\
    (v < 0)%Q.
Proof.
  assert (Ht : timestamp Toy.learner1 = Some 5%Q) by reflexivity.
  split; [exact Ht|].
  destruct (Toy.step 2 (Some "reverb"%string) 2 Toy.learner1 Toy.split1 3%Q)
    as [[self' events]|] eqn:E; [|vm_compute in E; discriminate].
  destruct (steps_per_second_edge_cases
              Toy.loss_value_and_grad Toy.optimizer_update Toy.apply_updates
              Toy.random_split Toy.pmean_grads 2 (Some "reverb"%string) 2
              Toy.sub_batch Toy.learner1 Toy.split1 3%Q self' events 5%Q
              E Ht) as (v & result & H1 & H2 & _ & _ & H3).
  exists self', events, v, result. split; [reflexivity|].
  split; [exact H1|]. split; [exact H2|].
  apply H3; [intros H; vm_compute in H; discriminate|reflexivity|lia].
Defined.

(** Three calls at the readings 5, 7 and 10 with two sub-steps each: five
    seconds of walltime and six steps. *)
Lemma counters_after_run_witness :
  Forall (λ c : PrefetchingSplit (list Q) * Q, ~ (c.2 == 0)%Q)
         [(Toy.split1, 5%Q); (Toy.split1, 7%Q); (Toy.split1, 10%Q)] /\
  exists self' events w n,
    Toy.run_steps 2 None 2 Toy.learner0
                  [(Toy.split1, 5%Q); (Toy.split1, 7%Q); (Toy.split1, 10%Q)]
      = Some (self', events) /\
    counts self' !! "walltime" = Some w /\ (w == 10 - 5)%Q /\
    counts self' !! "steps" = Some n /\ (n == 6)%Q.
Proof.
  assert (Hall : Forall (λ c : PrefetchingSplit (list Q) * Q, ~ (c.2 == 0)%Q)
                        [(Toy.split1, 5%Q); (Toy.split1, 7%Q);
                         (Toy.split1, 10%Q)]).
  { repeat (constructor; [intros H; vm_compute in H; discriminate|]).
    constructor. }
  split; [exact Hall|].
  destruct (Toy.run_steps 2 None 2 Toy.learner0
              [(Toy.split1, 5%Q); (Toy.split1, 7%Q); (Toy.split1, 10%Q)])
    as [[self' events]|] eqn:E; [|vm_compute in E; discriminate].
  destruct (counters_after_run
              Toy.network_init Toy.loss_value_and_grad Toy.optimizer_init
              Toy.optimizer_update Toy.apply_updates Toy.random_split
              Toy.random_split3 Toy.pmean_grads 2 (@None string) 2
              Toy.sub_batch 1 1%positive Toy.split1 5%Q
              [(Toy.split1, 7%Q); (Toy.split1, 10%Q)] self' events Hall E)
    as (w & n & Hw & Ew & Hn & En).
  exists self', events, w, n. split; [reflexivity|].
  split; [exact Hw|]. split; [exact Ew|]. split; [exact Hn|exact En].
Defined.
